(** * helloworld: a shallow embedding of [main.go]

    The program is a small Go web server: a page handler that fills a
    greeting into a template, a (defined) health handler, two
    middlewares, and a signal-driven graceful shutdown.  The embedding
    follows the file top-down:

    - [GoStrings]: the byte-string functions of package [strings] that the
      page handler calls;
    - [Http]: requests, the response writer, contexts, headers and the
      handlers and middlewares of [main.go];
    - [Lifecycle]: the main goroutine and the shutdown goroutine as an
      interleaved transition system over the process state. *)

From Stdlib Require Import ZArith Lia Ascii.
From stdpp Require Import base list strings gmap pretty.

(** Go strings are byte sequences. *)
Abbreviation bytes := (list Ascii.ascii).

Definition b (s : string) : bytes := String.list_ascii_of_string s.

(* ===================================================================== *)
(** ** Package [strings] *)
(* ===================================================================== *)

Module GoStrings.

(** [strings.HasPrefix(s, prefix)]. *)
Fixpoint HasPrefix (s pre : bytes) {struct pre} : bool :=
  match pre, s with
  | [], _ => true
  | _ :: _, [] => false
  | p :: pre', c :: s' => if decide (c = p) then HasPrefix s' pre' else false
  end.

(** [strings.Index(s, substr)]: offset of the first occurrence; [None]
    stands for the -1 of the library. *)
Fixpoint Index (s substr : bytes) : option nat :=
  if HasPrefix s substr then Some 0%nat
  else match s with
       | [] => None
       | _ :: s' => S <$> Index s' substr
       end.

(** [strings.Contains(s, substr)] is [Index(s, substr) >= 0]. *)
Definition Contains (s substr : bytes) : bool :=
  match Index s substr with Some _ => true | None => false end.

(** [strings.Count(s, substr)] for a non-empty [substr]: the number of
    non-overlapping occurrences, found left to right.  The loop
    [i := Index(s, substr); if i == -1 return n; n++; s = s[i+len(substr):]]
    shortens [s] at every turn, so [length s] turns are enough. *)
Fixpoint Count_loop (fuel : nat) (s substr : bytes) : nat :=
  match fuel with
  | O => O
  | S fuel' =>
      match Index s substr with
      | None => O
      | Some i => S (Count_loop fuel' (drop (i + length substr) s) substr)
      end
  end.

Definition Count (s substr : bytes) : nat := Count_loop (length s) s substr.

(** The copying loop of [strings.Replace]: [n] replacements, then the rest
    of [s] is copied.  [Index] cannot fail inside the loop, because [n] was
    obtained from [Count]; the [None] branch only makes the function
    total. *)
Fixpoint Replace_loop (n : nat) (s old new : bytes) : bytes :=
  match n with
  | O => s
  | S n' =>
      match Index s old with
      | Some j => take j s ++ new ++ Replace_loop n' (drop (j + length old) s) old new
      | None => s
      end
  end.

(** [strings.Replace(s, old, new, -1)] for a non-empty [old].  (The
    library's branch for an empty [old] walks UTF-8 runes; the program
    only ever passes the placeholder token as [old].) *)
Definition Replace (s old new : bytes) : bytes :=
  if decide (old = new) then s
  else match Count s old with
       | O => s
       | m => Replace_loop m s old new
       end.

(** [sub] occurs in [s] as a contiguous block. *)
Definition occurs (sub s : bytes) : Prop := ∃ pre post, s = pre ++ sub ++ post.

(** [m] is foreign to [new]: [m] contains neither the first nor the last
    byte of [new] and does not occur inside it.  Such an [m] cannot
    overlap a copy of [new] in any text. *)
Definition foreign_to (m new : bytes) : bool :=
  match head new, last new with
  | Some c, Some d =>
      negb (bool_decide (c ∈ m)) && negb (bool_decide (d ∈ m)) && negb (Contains new m)
  | _, _ => false
  end.

End GoStrings.

(* ===================================================================== *)
(** ** Package [net/http] as the program uses it, and the handlers *)
(* ===================================================================== *)

Module Http.
Import GoStrings.

(** *** Status codes *)

Definition StatusOK : Z := 200.
Definition StatusNoContent : Z := 204.
Definition StatusMovedPermanently : Z := 301.
Definition StatusNotModified : Z := 304.
Definition StatusBadRequest : Z := 400.
Definition StatusNotFound : Z := 404.
Definition StatusServiceUnavailable : Z := 503.

(** *** [http.Header]: [map[string][]string]

    Keys are stored in canonical MIME form; every key the program uses
    is already written in that form. *)

Abbreviation Header := (gmap string (list string)).

(** [h.Get(key)]: the first value under [key], the empty string when there
    is none. *)
Definition Header_Get (h : Header) (key : string) : string :=
  match h !! key with
  | Some (v :: _) => v
  | _ => ""
  end.

(** [h.Set(key, value)] replaces whatever was stored under [key]. *)
Definition Header_Set (h : Header) (key value : string) : Header :=
  <[key := [value]]> h.

(** *** [context.Context] *)

(** Context keys are compared as interface values: by dynamic type and
    value.  [KeyInt] are the keys of the program's [type key int]; the
    library's own keys have another type. *)
Inductive ctxkey :=
  | KeyInt (n : Z)
  | KeyLib (name : string).

#[global] Instance ctxkey_eq_dec : EqDecision ctxkey.
Proof. solve_decision. Defined.

Definition requestIDKey : ctxkey := KeyInt 0.

(** Values stored in a context ([interface{}]). *)
Inductive any :=
  | AString (s : string)
  | AOther (descr : string).

Inductive Context :=
  | Background
  | WithValue (parent : Context) (k : ctxkey) (v : any).

(** [ctx.Value(key)]: the innermost binding, [None] for [nil]. *)
Fixpoint Value (ctx : Context) (k : ctxkey) : option any :=
  match ctx with
  | Background => None
  | WithValue parent k' v => if decide (k = k') then Some v else Value parent k
  end.

(** The two-result type assertion [x.(string)]. *)
Definition assert_string (x : option any) : string * bool :=
  match x with
  | Some (AString s) => (s, true)
  | _ => ("", false)
  end.

(** *** [http.Request]

    The target of a request other than CONNECT is in origin form, a path
    with an optional query: [r.URL] has neither scheme nor host.
    [URL_Path] is the decoded path, [URL_RawQuery] the query without the
    question mark, [URL_ForceQuery] tells a target that ends in a bare
    question mark. *)

Record Request := {
  Method : string;
  URL_Path : string;        (* r.URL.Path *)
  URL_RawQuery : string;    (* r.URL.RawQuery *)
  URL_ForceQuery : bool;    (* r.URL.ForceQuery *)
  RequestURI : string;
  ProtoMajor : Z;
  ProtoMinor : Z;
  ReqHeader : Header;       (* r.Header *)
  RemoteAddr : string;
  Ctx : Context             (* r.Context() *)
}.

Definition WithContext (r : Request) (ctx : Context) : Request :=
  {| Method := Method r; URL_Path := URL_Path r; URL_RawQuery := URL_RawQuery r;
     URL_ForceQuery := URL_ForceQuery r; RequestURI := RequestURI r;
     ProtoMajor := ProtoMajor r; ProtoMinor := ProtoMinor r;
     ReqHeader := ReqHeader r; RemoteAddr := RemoteAddr r; Ctx := ctx |}.

Definition UserAgent (r : Request) : string := Header_Get (ReqHeader r) "User-Agent".

Definition ProtoAtLeast (r : Request) (major minor : Z) : bool :=
  bool_decide (major < ProtoMajor r ∨ (ProtoMajor r = major ∧ minor ≤ ProtoMinor r))%Z.

(** *** [http.ResponseWriter]

    [rw_header] is the map returned by [w.Header()].  [rw_sent] is set by
    the first [WriteHeader] (explicit, or implied by the first [Write]):
    the status code and the header map as the handler had it at that
    moment (the server adds fields of its own, such as the date and the
    length, when it writes them out).  [rw_body] collects the bytes the
    handler has written; [body_sent] is what of them goes to the client. *)

Record ResponseWriter := {
  rw_header : Header;
  rw_sent : option (Z * Header);
  rw_body : bytes
}.

Definition newResponse : ResponseWriter :=
  {| rw_header := ∅; rw_sent := None; rw_body := [] |}.

Definition rw_status (w : ResponseWriter) : option Z := fst <$> rw_sent w.

Definition rw_SetHeader (key value : string) (w : ResponseWriter) : ResponseWriter :=
  {| rw_header := Header_Set (rw_header w) key value;
     rw_sent := rw_sent w; rw_body := rw_body w |}.

(** The first [WriteHeader] fixes the status and the header. *)
Definition rw_commit (code : Z) (w : ResponseWriter) : ResponseWriter :=
  {| rw_header := rw_header w; rw_sent := Some (code, rw_header w);
     rw_body := rw_body w |}.

Definition rw_append (data : bytes) (w : ResponseWriter) : ResponseWriter :=
  {| rw_header := rw_header w; rw_sent := rw_sent w; rw_body := rw_body w ++ data |}.

Definition bodyAllowedForStatus (status : Z) : bool :=
  if bool_decide (100 ≤ status ≤ 199)%Z then false
  else if bool_decide (status = StatusNoContent) then false
  else if bool_decide (status = StatusNotModified) then false
  else true.


(** *** The world a handler runs in *)

(** One line written by a [*log.Logger]: the logger's prefix and the text
    of the call (the timestamp that [log.LstdFlags] puts between them is
    not represented). *)
Record LogLine := { line_prefix : string; line_text : string }.

Record World := {
  rw : ResponseWriter;     (* the response being built *)
  stdout : list LogLine;   (* what the loggers have written to os.Stdout *)
  healthy : Z;             (* the package variable [healthy int32] *)
  now : Z                  (* time.Now().UnixNano() *)
}.

Definition on_rw (f : ResponseWriter → ResponseWriter) (σ : World) : World :=
  {| rw := f (rw σ); stdout := stdout σ; healthy := healthy σ; now := now σ |}.

(** A handler either returns or panics; either way it leaves a world.
    [Panicked] carries the panic value as [%v] prints it and the stack
    trace of the goroutine; [Aborted] is [panic(http.ErrAbortHandler)]. *)
Inductive Outcome :=
  | Returned
  | Panicked (v : string) (stack : string)
  | Aborted.

Definition Handler := Request → World → Outcome * World.

(** [defer d; body]: [d] runs when [body] is left, by return or by panic,
    and a panic keeps unwinding afterwards. *)
Definition defer (d : World → World) (body : World → Outcome * World)
  : World → Outcome * World :=
  fun σ => let '(o, σ1) := body σ in (o, d σ1).

(** *** [*log.Logger] *)

Record Logger := { prefix : string }.

Definition newline : string := String (ascii_of_nat 10) EmptyString.

(** [fmt.Sprintln] of string operands: separated by spaces, newline at
    the end. *)
Definition Sprintln (operands : list string) : string :=
  String.concat " " operands +:+ newline.

Definition Println (l : Logger) (operands : list string) (σ : World) : World :=
  {| rw := rw σ;
     stdout := stdout σ ++ [{| line_prefix := prefix l; line_text := Sprintln operands |}];
     healthy := healthy σ; now := now σ |}.

(** [l.Printf] with its text already formatted: the logger ends the text
    with a newline when it has none. *)
Definition Printf (l : Logger) (text : string) (σ : World) : World :=
  let text := if bool_decide (last (b text) = Some (ascii_of_nat 10))
              then text else text +:+ newline in
  {| rw := rw σ;
     stdout := stdout σ ++ [{| line_prefix := prefix l; line_text := text |}];
     healthy := healthy σ; now := now σ |}.

(** main.go:41, the one logger of the program; line 57 makes it the
    [ErrorLog] of the server as well. *)
Definition logger : Logger := {| prefix := "http: " |}.

(** [server.logf]: what net/http itself has to say goes to [ErrorLog]. *)
Definition logf (text : string) : World → World := Printf logger text.

(** *** Writing the response (net/http of Go 1.13)

    [w.WriteHeader(code)].  A call on a response whose header is written
    is not carried out but reported through [logf], with the first
    function outside net/http on the stack, [caller].  (A code outside
    100..999 makes the call panic; the program has no such code.) *)
Definition WriteHeader (caller : string) (code : Z) (σ : World) : World :=
  match rw_sent (rw σ) with
  | Some _ => logf ("http: superfluous response.WriteHeader call from " +:+ caller) σ
  | None => on_rw (rw_commit code) σ
  end.

(** [w.Write(data)]: implies [WriteHeader(StatusOK)] when no header has
    been written; a status that allows no body drops the data. *)
Definition Write (data : bytes) (σ : World) : World :=
  let σ1 := match rw_sent (rw σ) with
            | None => on_rw (rw_commit StatusOK) σ
            | Some _ => σ
            end in
  match rw_sent (rw σ1) with
  | Some (code, _) =>
      if bodyAllowedForStatus code then on_rw (rw_append data) σ1 else σ1
  | None => σ1
  end.

(** *** The outside world of the program *)

(** What [client.Ping()] of the cache client can come back with: a status
    reply, or an error (dial failure, timeout, protocol error, ...). *)
Inductive PingOutcome :=
  | PingReply (status : string)
  | PingError (err : string).

(** [cmd.Result()]: the value and the error; the value of a failed command
    is the zero string. *)
Definition Result (p : PingOutcome) : string * option string :=
  match p with
  | PingReply status => (status, None)
  | PingError err => ("", Some err)
  end.

Record Env := {
  redisAddr : string;                          (* flag -redis *)
  ReadFile : string → bytes * option string;   (* ioutil.ReadFile: data read, error *)
  Ping : string → PingOutcome;                 (* redis client at an address *)
  FileServer : string → Handler                (* http.FileServer(http.Dir(root)) *)
}.

Section Handlers.
Variable env : Env.

(** main.go, [testRedisConnection]. *)
Definition testRedisConnection (redisAddress : string) : bool :=
  let '(pong, _) := Result (Ping env redisAddress) in
  if decide (pong = "PONG") then true else false.

Definition placeholder : bytes := b "{{LEAD}}".
Definition leadConnected : bytes :=
  b "This is a simple service application(connected to Redis). Deployed by Cloud 66 ~".
Definition leadStandalone : bytes :=
  b "This is a simple single service application. Deployed by Cloud 66".

(** The words by which the two greetings are told apart. *)
Definition markConnected : bytes := b "connected to Redis".
Definition markStandalone : bytes := b "single service application".

(** The page body: the template with every placeholder replaced. *)
Definition render (contentBytes : bytes) : bytes :=
  let content := contentBytes in
  let leadContent :=
    if testRedisConnection (redisAddr env) then leadConnected else leadStandalone in
  Replace content placeholder leadContent.

(** main.go, [handler]: the error of [ReadFile] is discarded. *)
Definition handler : Handler := fun r σ =>
  let '(contentBytes, _) := ReadFile env "./static/index.html" in
  (Returned, Write (render contentBytes) σ).

(** main.go, [healthz]. *)
Definition healthz : Handler := fun r σ =>
  if decide (healthy σ = 1%Z)
  then (Returned, WriteHeader "main.healthz.func1 (main.go:108)" StatusNoContent σ)
  else (Returned,
        WriteHeader "main.healthz.func1 (main.go:111)" StatusServiceUnavailable σ).
End Handlers.

(** main.go, [logging]. *)
Definition logging (logger : Logger) (next : Handler) : Handler := fun r =>
  defer
    (fun σ =>
       let '(requestID, ok) := assert_string (Value (Ctx r) requestIDKey) in
       let requestID := if ok then requestID else "unknown" in
       Println logger [requestID; Method r; URL_Path r; RemoteAddr r; UserAgent r] σ)
    (next r).

(** main.go, [tracing]. *)
Definition tracing (nextRequestID : World → string) (next : Handler) : Handler :=
  fun r σ =>
    let requestID := Header_Get (ReqHeader r) "X-Request-Id" in
    let requestID := if decide (requestID = "") then nextRequestID σ else requestID in
    let ctx := WithValue (Ctx r) requestIDKey (AString requestID) in
    let σ := on_rw (rw_SetHeader "X-Request-Id" requestID) σ in
    next (WithContext r ctx) σ.

(** main.go, the closure [nextRequestID]: [fmt.Sprintf("%d", time.Now().UnixNano())]. *)
Definition nextRequestID (σ : World) : string := pretty (now σ).

(** *** [http.ServeMux] *)

Definition slash : ascii := "/"%char.

(** The elements of a path between its slashes. *)
Fixpoint split_slash (p : bytes) : list bytes :=
  match p with
  | [] => [[]]
  | c :: p' =>
      if decide (c = slash) then [] :: split_slash p'
      else match split_slash p' with
           | elem :: rest => (c :: elem) :: rest
           | [] => [[c]]
           end
  end.

Fixpoint join_slash (elems : list bytes) : bytes :=
  match elems with
  | [] => []
  | [e] => e
  | e :: rest => e ++ slash :: join_slash rest
  end.

(** One element of [path.Clean] on a rooted path; [out] is the cleaned
    path so far, last element first.  Empty elements (doubled slashes)
    and [.] vanish, [..] removes the element before it and cannot climb
    above the root. *)
Definition clean_elem (out : list bytes) (elem : bytes) : list bytes :=
  if decide (elem = []) then out
  else if decide (elem = b ".") then out
  else if decide (elem = b "..") then tail out
  else elem :: out.

(** [path.Clean(p)] for a [p] that starts with a slash. *)
Definition path_Clean (p : bytes) : bytes :=
  slash :: join_slash (reverse (foldl clean_elem [] (split_slash p))).

(** net/http, [cleanPath]: the canonical form of a request path. *)
Definition cleanPath_bytes (p : bytes) : bytes :=
  match p with
  | [] => [slash]
  | c :: _ =>
      let p := if decide (c = slash) then p else slash :: p in
      let np := path_Clean p in
      if decide (last p = Some slash ∧ np ≠ [slash])
      then if decide (length p = S (length np)) then
             if HasPrefix p np then p else np ++ [slash]
           else np ++ [slash]
      else np
  end.

Definition cleanPath (p : string) : string :=
  String.string_of_list_ascii (cleanPath_bytes (b p)).

Record muxEntry := { me_pattern : string; me_h : Handler }.

(** The registered entries, in registration order. *)
Abbreviation ServeMux := (list muxEntry).

(** [mux.Handle(pattern, handler)].  (It panics on an empty pattern and on
    a pattern registered twice; [main] does neither.) *)
Definition Handle (mux : ServeMux) (pattern : string) (h : Handler) : ServeMux :=
  mux ++ [{| me_pattern := pattern; me_h := h |}].

Fixpoint lookup_exact (mux : ServeMux) (path : string) : option muxEntry :=
  match mux with
  | [] => None
  | e :: mux' => if decide (me_pattern e = path) then Some e else lookup_exact mux' path
  end.

Definition is_subtree (pattern : string) : bool :=
  bool_decide (last (b pattern) = Some slash).

(** The longest subtree pattern (one that ends in a slash) that is a
    prefix of [path]; [best] is the longest seen so far. *)
Fixpoint longest_subtree (mux : ServeMux) (path : string) (best : option muxEntry)
  : option muxEntry :=
  match mux with
  | [] => best
  | e :: mux' =>
      let better :=
        match best with
        | None => true
        | Some e0 => bool_decide (String.length (me_pattern e0) < String.length (me_pattern e))%nat
        end in
      if is_subtree (me_pattern e) && HasPrefix (b path) (b (me_pattern e)) && better
      then longest_subtree mux' path (Some e)
      else longest_subtree mux' path best
  end.

(** [mux.match(path)]: an exact match first, then the longest subtree. *)
Definition mux_match (mux : ServeMux) (path : string) : option muxEntry :=
  match lookup_exact mux path with
  | Some e => Some e
  | None => longest_subtree mux path None
  end.

(** *** [net/url]: the text of a URL *)

Definition is_alnum (c : ascii) : bool :=
  let n := nat_of_ascii c in
  ((97 <=? n) && (n <=? 122) || (65 <=? n) && (n <=? 90) || (48 <=? n) && (n <=? 57))%nat.

(** [shouldEscape(c, encodePath)]: letters, digits and [-_.~] stay, and of
    the reserved characters all but the question mark. *)
Definition shouldEscape_path (c : ascii) : bool :=
  if is_alnum c then false
  else if bool_decide (c ∈ b "-_.~") then false
  else if bool_decide (c ∈ b "$&+,/:;=?@") then bool_decide (c = "?"%char)
  else true.

Definition upperhex (n : nat) : ascii := nth n (b "0123456789ABCDEF") "0"%char.
Definition lowerhex (n : nat) : ascii := nth n (b "0123456789abcdef") "0"%char.

(** [escape(s, encodePath)]. *)
Fixpoint escape_path (s : bytes) : bytes :=
  match s with
  | [] => []
  | c :: s' =>
      if shouldEscape_path c
      then "%"%char :: upperhex (nat_of_ascii c / 16) :: upperhex (nat_of_ascii c `mod` 16)
                    :: escape_path s'
      else c :: escape_path s'
  end.

(** [u.String()] for a URL that has a path and a query and nothing else,
    as the mux builds it for a redirect.  (With the path replaced,
    [u.RawPath] no longer decodes to [u.Path], so [EscapedPath] escapes
    the path afresh.)  A first segment with a colon is guarded by [./]. *)
Definition URL_String (path rawQuery : string) (forceQuery : bool) : bytes :=
  let escaped := if decide (path = "*") then b "*" else escape_path (b path) in
  let guard := match Index escaped (b ":") with
               | Some i => if bool_decide (slash ∈ take i escaped) then [] else b "./"
               | None => []
               end in
  guard ++ escaped
  ++ (if forceQuery || negb (bool_decide (rawQuery = "")) then b "?" ++ b rawQuery else []).

(** *** [http.Error], [http.Redirect] *)

(** The mux is called from the closure of [logging]; that is the first
    function outside net/http on the stack of whatever the mux calls. *)
Definition mux_caller : string := "main.logging.func1.1 (main.go:139)".

(** [http.Error(w, msg, code)]. *)
Definition Error (msg : string) (code : Z) : Handler := fun r σ =>
  let σ := on_rw (rw_SetHeader "Content-Type" "text/plain; charset=utf-8") σ in
  let σ := on_rw (rw_SetHeader "X-Content-Type-Options" "nosniff") σ in
  let σ := WriteHeader mux_caller code σ in
  (Returned, Write (b (msg +:+ newline)) σ).

Definition NotFoundHandler : Handler := Error "404 page not found" StatusNotFound.

(** [strings.HasSuffix]. *)
Definition HasSuffix (s suffix : bytes) : bool := HasPrefix (reverse s) (reverse suffix).

(** The directory part of [path.Split]: up to the last slash. *)
Fixpoint path_dir (p : bytes) : bytes :=
  match p with
  | [] => []
  | c :: p' =>
      if decide (c = slash) then c :: path_dir p'
      else match path_dir p' with
           | [] => []
           | d => c :: d
           end
  end.

(** Bytes from 128 on as [%xx], in lower case. *)
Fixpoint hexEscapeNonASCII (s : bytes) : bytes :=
  match s with
  | [] => []
  | c :: s' =>
      if (128 <=? nat_of_ascii c)%nat
      then "%"%char :: lowerhex (nat_of_ascii c / 16) :: lowerhex (nat_of_ascii c `mod` 16)
                    :: hexEscapeNonASCII s'
      else c :: hexEscapeNonASCII s'
  end.

Definition dquote : ascii := ascii_of_nat 34.

Fixpoint htmlEscape (s : bytes) : bytes :=
  match s with
  | [] => []
  | c :: s' =>
      (if decide (c = "&"%char) then b "&amp;"
       else if decide (c = "<"%char) then b "&lt;"
       else if decide (c = ">"%char) then b "&gt;"
       else if decide (c = dquote) then b "&#34;"
       else if decide (c = "'"%char) then b "&#39;"
       else [c]) ++ htmlEscape s'
  end.

(** [statusText], for the codes that occur here. *)
Definition statusText (code : Z) : string :=
  if decide (code = StatusOK) then "OK"
  else if decide (code = StatusNoContent) then "No Content"
  else if decide (code = StatusMovedPermanently) then "Moved Permanently"
  else if decide (code = StatusNotModified) then "Not Modified"
  else if decide (code = StatusBadRequest) then "Bad Request"
  else if decide (code = StatusNotFound) then "Not Found"
  else if decide (code = StatusServiceUnavailable) then "Service Unavailable"
  else "".

(** The note a redirect carries as the body of the answer to a GET. *)
Definition redirect_note (url : bytes) (code : Z) : bytes :=
  b "<a href=" ++ [dquote] ++ htmlEscape url ++ [dquote] ++ b ">"
  ++ b (statusText code) ++ b "</a>." ++ b newline.

(** [http.Redirect(w, r, url, code)] for a [url] in which [url.Parse]
    finds neither scheme nor host, as in every target of the mux: a
    relative path is made absolute, the path is cleaned with its final
    slash preserved, the query is put back. *)
Definition Redirect (url : bytes) (code : Z) : Handler := fun r σ =>
  let oldpath := if decide (URL_Path r = "") then [slash] else b (URL_Path r) in
  let url := if HasPrefix url [slash] then url else path_dir oldpath ++ url in
  let '(url, query) := match Index url (b "?") with
                       | Some i => (take i url, drop i url)
                       | None => (url, [])
                       end in
  let trailing := HasSuffix url [slash] in
  let url := path_Clean url in
  let url := if trailing && negb (HasSuffix url [slash]) then url ++ [slash] else url in
  let url := url ++ query in
  let hadCT := bool_decide (is_Some (rw_header (rw σ) !! "Content-Type")) in
  let σ := on_rw (rw_SetHeader "Location"
                    (String.string_of_list_ascii (hexEscapeNonASCII url))) σ in
  let σ := if negb hadCT && bool_decide (Method r = "GET" ∨ Method r = "HEAD")
           then on_rw (rw_SetHeader "Content-Type" "text/html; charset=utf-8") σ
           else σ in
  let σ := WriteHeader mux_caller code σ in
  (* fmt.Fprintln(w, note) *)
  let σ := if negb hadCT && bool_decide (Method r = "GET")
           then Write (redirect_note url code ++ b newline) σ
           else σ in
  (Returned, σ).

(** [http.RedirectHandler(url, code)]. *)
Definition RedirectHandler (url : bytes) (code : Z) : Handler := Redirect url code.

(** [mux.handler(host, path)].  No pattern of this program names a host,
    so the host plays no part. *)
Definition mux_handler (mux : ServeMux) (path : string) : Handler :=
  match mux_match mux path with
  | Some e => me_h e
  | None => NotFoundHandler
  end.

(** [mux.shouldRedirectRLocked]: [path] is not registered, but [path/] is. *)
Definition shouldRedirect (mux : ServeMux) (path : string) : bool :=
  match lookup_exact mux path with
  | Some _ => false
  | None =>
      if decide (path = "") then false
      else match lookup_exact mux (path +:+ "/") with
           | Some _ => negb (bool_decide (last (b path) = Some slash))
           | None => false
           end
  end.

(** [mux.redirectToPathSlash]: the target is a new URL made of the path
    with a slash appended and of the query. *)
Definition slash_target (path : string) (r : Request) : bytes :=
  URL_String (path +:+ "/") (URL_RawQuery r) false.

(** [mux.Handler(r)]: CONNECT requests are dispatched on the path as it
    is; every other request has its path cleaned, and is redirected to
    the URL of the request with the clean path when that differs. *)
Definition ServeMux_Handler (mux : ServeMux) (r : Request) : Handler :=
  if decide (Method r = "CONNECT") then
    if shouldRedirect mux (URL_Path r)
    then RedirectHandler (slash_target (URL_Path r) r) StatusMovedPermanently
    else mux_handler mux (URL_Path r)
  else
    let path := cleanPath (URL_Path r) in
    if shouldRedirect mux path
    then RedirectHandler (slash_target path r) StatusMovedPermanently
    else if decide (path ≠ URL_Path r)
    then RedirectHandler (URL_String path (URL_RawQuery r) (URL_ForceQuery r))
                         StatusMovedPermanently
    else mux_handler mux (URL_Path r).

(** [mux.ServeHTTP(w, r)]. *)
Definition ServeMux_ServeHTTP (mux : ServeMux) : Handler := fun r σ =>
  if decide (RequestURI r = "*") then
    let σ := if ProtoAtLeast r 1 1
             then on_rw (rw_SetHeader "Connection" "close") σ else σ in
    (Returned, WriteHeader mux_caller StatusBadRequest σ)
  else ServeMux_Handler mux r r σ.

(** *** [main]: the router and the handler chain of the server *)

Section Server.
Variable env : Env.

Definition router : ServeMux :=
  let mux := [] in
  let mux := Handle mux "/style.css" (FileServer env "./static") in
  let mux := Handle mux "/background.jpg" (FileServer env "./static") in
  let mux := Handle mux "/" (handler env) in
  mux.

(** The [Handler] field of the [http.Server]. *)
Definition server_Handler : Handler :=
  tracing nextRequestID (logging logger (ServeMux_ServeHTTP router)).

(** net/http answers [OPTIONS *] itself. *)
Definition globalOptionsHandler : Handler := fun r σ =>
  (Returned, on_rw (rw_SetHeader "Content-Length" "0") σ).

(** What the connection does with one request: run the handler on a
    fresh response and, when the handler returns without having written
    a header, send [200].  A panic is recovered by the connection, which
    reports it through [logf] (unless it is the abort panic) and is then
    closed, whatever of the response had gone out. *)
Definition serve (r : Request) (σ : World) : Outcome * World :=
  let σ := on_rw (fun _ => newResponse) σ in
  let h := if decide (RequestURI r = "*" ∧ Method r = "OPTIONS")
           then globalOptionsHandler else server_Handler in
  let '(o, σ') := h r σ in
  match o with
  | Returned =>
      (o, match rw_sent (rw σ') with
          | None => on_rw (rw_commit StatusOK) σ'
          | Some _ => σ'
          end)
  | Panicked v stack =>
      (o, logf ("http: panic serving " +:+ RemoteAddr r +:+ ": " +:+ v
                +:+ newline +:+ stack) σ')
  | Aborted => (o, σ')
  end.
End Server.

(** A path element that [path.Clean] keeps: not empty, neither [.] nor
    [..], and free of slashes. *)
Definition plain_elem (e : bytes) : Prop :=
  e ≠ [] ∧ e ≠ b "." ∧ e ≠ b ".." ∧ slash ∉ e.

(** The request a client sends when it follows a redirect to [path]. *)
Definition follow (r : Request) (path : string) : Request :=
  {| Method := Method r; URL_Path := path; URL_RawQuery := URL_RawQuery r;
     URL_ForceQuery := URL_ForceQuery r;
     RequestURI := String.string_of_list_ascii
                     (URL_String path (URL_RawQuery r) (URL_ForceQuery r));
     ProtoMajor := ProtoMajor r; ProtoMinor := ProtoMinor r;
     ReqHeader := ReqHeader r; RemoteAddr := RemoteAddr r; Ctx := Ctx r |}.

End Http.

(* ===================================================================== *)
(** ** [main]: start-up, the signal watcher and graceful shutdown *)
(* ===================================================================== *)

Module Lifecycle.

(** [os.Interrupt] is [SIGINT]. *)
Inductive Signal := SIGINT | SIGTERM.

#[global] Instance Signal_eq_dec : EqDecision Signal.
Proof. solve_decision. Defined.

(** [time.Duration] counts nanoseconds. *)
Definition Second : Z := 1000000000.
Definition ReadTimeout : Z := 5 * Second.
Definition WriteTimeout : Z := 10 * Second.
Definition IdleTimeout : Z := 15 * Second.
Definition shutdownTimeout : Z := 30 * Second.

(** The statements of [main] from line 82 on.  [M_serving] is the main
    goroutine blocked inside [ListenAndServe] with the listener bound. *)
Inductive MainPC :=
  | M_log_ready        (* 82: logger.Println("Server is ready ...") *)
  | M_store_healthy    (* 83: atomic.StoreInt32(&healthy, 1) *)
  | M_ListenAndServe   (* 84: the call *)
  | M_serving          (* 84: inside Serve, accepting connections *)
  | M_wait_done        (* 88: <-done *)
  | M_log_stopped      (* 89: logger.Println("Server stopped") *)
  | M_returned.

(** The statements of the goroutine of lines 67-80.  [W_in_Shutdown] is
    the goroutine inside [server.Shutdown], waiting for connections to
    become idle or for the context to expire. *)
Inductive WatcherPC :=
  | W_recv_quit        (* 68: <-quit *)
  | W_log_shutting     (* 69 *)
  | W_store_healthy    (* 70: atomic.StoreInt32(&healthy, 0) *)
  | W_make_ctx         (* 72: context.WithTimeout(..., 30*time.Second) *)
  | W_keepalives       (* 75: server.SetKeepAlivesEnabled(false) *)
  | W_call_Shutdown    (* 76: the call *)
  | W_in_Shutdown      (* 76: inside Shutdown *)
  | W_close_done       (* 79: close(done) *)
  | W_finished.

#[global] Instance MainPC_eq_dec : EqDecision MainPC.
Proof. solve_decision. Defined.
#[global] Instance WatcherPC_eq_dec : EqDecision WatcherPC.
Proof. solve_decision. Defined.

(** The process once both [signal.Notify] calls are made and the goroutine
    is started (line 80).  [p_stores] is a history variable: the values
    stored into [healthy], oldest first. *)
Record Proc := {
  p_healthy : Z;                (* healthy int32 *)
  p_stores : list Z;
  p_cancel : list Signal;       (* buffer of [cancel], capacity 0 *)
  p_quit : list Signal;         (* buffer of [quit], capacity 1 *)
  p_main : MainPC;
  p_watcher : WatcherPC;
  p_keepAlives : bool;          (* keep-alives of the server *)
  p_inShutdown : bool;          (* Shutdown has been called *)
  p_listening : bool;           (* the listener is bound and accepting *)
  p_ctx_timeout : option Z;     (* timeout of the context given to Shutdown *)
  p_done : bool;                (* [done] is closed *)
  p_exit : option Z;            (* exit status, once the process is gone *)
  p_log : list string
}.

Definition init : Proc :=
  {| p_healthy := 0; p_stores := []; p_cancel := []; p_quit := [];
     p_main := M_log_ready; p_watcher := W_recv_quit;
     p_keepAlives := true; p_inShutdown := false; p_listening := false;
     p_ctx_timeout := None; p_done := false; p_exit := None; p_log := [] |}.

Definition set_healthy (v : Z) (p : Proc) : Proc :=
  {| p_healthy := v; p_stores := p_stores p; p_cancel := p_cancel p;
     p_quit := p_quit p; p_main := p_main p; p_watcher := p_watcher p;
     p_keepAlives := p_keepAlives p; p_inShutdown := p_inShutdown p;
     p_listening := p_listening p; p_ctx_timeout := p_ctx_timeout p;
     p_done := p_done p; p_exit := p_exit p; p_log := p_log p |}.

Definition set_stores (v : list Z) (p : Proc) : Proc :=
  {| p_healthy := p_healthy p; p_stores := v; p_cancel := p_cancel p;
     p_quit := p_quit p; p_main := p_main p; p_watcher := p_watcher p;
     p_keepAlives := p_keepAlives p; p_inShutdown := p_inShutdown p;
     p_listening := p_listening p; p_ctx_timeout := p_ctx_timeout p;
     p_done := p_done p; p_exit := p_exit p; p_log := p_log p |}.

Definition set_quit (v : list Signal) (p : Proc) : Proc :=
  {| p_healthy := p_healthy p; p_stores := p_stores p; p_cancel := p_cancel p;
     p_quit := v; p_main := p_main p; p_watcher := p_watcher p;
     p_keepAlives := p_keepAlives p; p_inShutdown := p_inShutdown p;
     p_listening := p_listening p; p_ctx_timeout := p_ctx_timeout p;
     p_done := p_done p; p_exit := p_exit p; p_log := p_log p |}.

Definition set_main (v : MainPC) (p : Proc) : Proc :=
  {| p_healthy := p_healthy p; p_stores := p_stores p; p_cancel := p_cancel p;
     p_quit := p_quit p; p_main := v; p_watcher := p_watcher p;
     p_keepAlives := p_keepAlives p; p_inShutdown := p_inShutdown p;
     p_listening := p_listening p; p_ctx_timeout := p_ctx_timeout p;
     p_done := p_done p; p_exit := p_exit p; p_log := p_log p |}.

Definition set_watcher (v : WatcherPC) (p : Proc) : Proc :=
  {| p_healthy := p_healthy p; p_stores := p_stores p; p_cancel := p_cancel p;
     p_quit := p_quit p; p_main := p_main p; p_watcher := v;
     p_keepAlives := p_keepAlives p; p_inShutdown := p_inShutdown p;
     p_listening := p_listening p; p_ctx_timeout := p_ctx_timeout p;
     p_done := p_done p; p_exit := p_exit p; p_log := p_log p |}.

Definition set_keepAlives (v : bool) (p : Proc) : Proc :=
  {| p_healthy := p_healthy p; p_stores := p_stores p; p_cancel := p_cancel p;
     p_quit := p_quit p; p_main := p_main p; p_watcher := p_watcher p;
     p_keepAlives := v; p_inShutdown := p_inShutdown p; p_listening := p_listening p;
     p_ctx_timeout := p_ctx_timeout p; p_done := p_done p; p_exit := p_exit p;
     p_log := p_log p |}.

Definition set_inShutdown (v : bool) (p : Proc) : Proc :=
  {| p_healthy := p_healthy p; p_stores := p_stores p; p_cancel := p_cancel p;
     p_quit := p_quit p; p_main := p_main p; p_watcher := p_watcher p;
     p_keepAlives := p_keepAlives p; p_inShutdown := v; p_listening := p_listening p;
     p_ctx_timeout := p_ctx_timeout p; p_done := p_done p; p_exit := p_exit p;
     p_log := p_log p |}.

Definition set_listening (v : bool) (p : Proc) : Proc :=
  {| p_healthy := p_healthy p; p_stores := p_stores p; p_cancel := p_cancel p;
     p_quit := p_quit p; p_main := p_main p; p_watcher := p_watcher p;
     p_keepAlives := p_keepAlives p; p_inShutdown := p_inShutdown p; p_listening := v;
     p_ctx_timeout := p_ctx_timeout p; p_done := p_done p; p_exit := p_exit p;
     p_log := p_log p |}.

Definition set_ctx_timeout (v : option Z) (p : Proc) : Proc :=
  {| p_healthy := p_healthy p; p_stores := p_stores p; p_cancel := p_cancel p;
     p_quit := p_quit p; p_main := p_main p; p_watcher := p_watcher p;
     p_keepAlives := p_keepAlives p; p_inShutdown := p_inShutdown p;
     p_listening := p_listening p; p_ctx_timeout := v; p_done := p_done p;
     p_exit := p_exit p; p_log := p_log p |}.

Definition set_done (v : bool) (p : Proc) : Proc :=
  {| p_healthy := p_healthy p; p_stores := p_stores p; p_cancel := p_cancel p;
     p_quit := p_quit p; p_main := p_main p; p_watcher := p_watcher p;
     p_keepAlives := p_keepAlives p; p_inShutdown := p_inShutdown p;
     p_listening := p_listening p; p_ctx_timeout := p_ctx_timeout p; p_done := v;
     p_exit := p_exit p; p_log := p_log p |}.

Definition set_exit (v : option Z) (p : Proc) : Proc :=
  {| p_healthy := p_healthy p; p_stores := p_stores p; p_cancel := p_cancel p;
     p_quit := p_quit p; p_main := p_main p; p_watcher := p_watcher p;
     p_keepAlives := p_keepAlives p; p_inShutdown := p_inShutdown p;
     p_listening := p_listening p; p_ctx_timeout := p_ctx_timeout p;
     p_done := p_done p; p_exit := v; p_log := p_log p |}.

Definition set_log (v : list string) (p : Proc) : Proc :=
  {| p_healthy := p_healthy p; p_stores := p_stores p; p_cancel := p_cancel p;
     p_quit := p_quit p; p_main := p_main p; p_watcher := p_watcher p;
     p_keepAlives := p_keepAlives p; p_inShutdown := p_inShutdown p;
     p_listening := p_listening p; p_ctx_timeout := p_ctx_timeout p;
     p_done := p_done p; p_exit := p_exit p; p_log := v |}.

Definition set_chans (cancel quit : list Signal) (p : Proc) : Proc :=
  {| p_healthy := p_healthy p; p_stores := p_stores p; p_cancel := cancel;
     p_quit := quit; p_main := p_main p; p_watcher := p_watcher p;
     p_keepAlives := p_keepAlives p; p_inShutdown := p_inShutdown p;
     p_listening := p_listening p; p_ctx_timeout := p_ctx_timeout p;
     p_done := p_done p; p_exit := p_exit p; p_log := p_log p |}.

(** [atomic.StoreInt32(&healthy, v)]. *)
Definition StoreInt32_healthy (v : Z) (p : Proc) : Proc :=
  set_stores (p_stores p ++ [v]) (set_healthy v p).

Definition Println (operands : list string) (p : Proc) : Proc :=
  set_log (p_log p ++ [Http.Sprintln operands]) p.

(** [logger.Fatalf]: the message, then [os.Exit(1)]. *)
Definition Fatalf (msg : string) (p : Proc) : Proc :=
  set_exit (Some 1%Z) (set_log (p_log p ++ [msg]) p).

(** Package [signal] sends without blocking: a signal goes into a channel
    that is subscribed to it and has room, and is dropped otherwise.  (An
    unbuffered channel has room only while a goroutine is receiving from
    it; nothing ever receives from [cancel].) *)
Definition notify (capacity : nat) (subscribed : list Signal) (buf : list Signal)
    (sig : Signal) : list Signal :=
  if bool_decide (sig ∈ subscribed) && bool_decide (length buf < capacity)%nat
  then buf ++ [sig] else buf.

(** Lines 38-39 and 64-65: who is notified of what. *)
Definition cancel_signals : list Signal := [SIGINT; SIGTERM].
Definition quit_signals : list Signal := [SIGINT].

Definition deliver (sig : Signal) (p : Proc) : Proc :=
  set_chans (notify 0 cancel_signals (p_cancel p) sig)
            (notify 1 quit_signals (p_quit p) sig) p.

(** How [server.Shutdown(ctx)] ends: every connection went idle and was
    closed, the context expired first, or closing a listener failed. *)
Inductive ShutdownResult :=
  | Drained
  | DeadlineExceeded
  | CloseError (err : string).

(** The error [Shutdown] returns: the context's error when it expired. *)
Definition Shutdown_err (res : ShutdownResult) : option string :=
  match res with
  | Drained => None
  | DeadlineExceeded => Some "context deadline exceeded"
  | CloseError err => Some err
  end.

(** What the environment decides in one run. *)
Record Scenario := {
  listenAddr : string;                (* flag -binding *)
  listen_error : option string;       (* net.Listen fails with this error *)
  shutdown_result : ShutdownResult
}.

Inductive Event :=
  | Deliver (sig : Signal)   (* the process receives a signal *)
  | StepMain                 (* the main goroutine runs its next statement *)
  | StepWatcher.             (* the goroutine of line 67 runs its next statement *)

#[global] Instance Event_eq_dec : EqDecision Event.
Proof. solve_decision. Defined.

(** Has [main] executed line 83?  Has the goroutine executed line 70? *)
Definition main_has_stored (pc : MainPC) : bool :=
  match pc with
  | M_log_ready | M_store_healthy => false
  | _ => true
  end.

Definition watcher_has_stored (pc : WatcherPC) : bool :=
  match pc with
  | W_recv_quit | W_log_shutting | W_store_healthy => false
  | _ => true
  end.

Section Steps.
Variable sc : Scenario.

(** One statement of [main]; [None] when it is blocked or has returned. *)
Definition step_main (p : Proc) : option Proc :=
  match p_main p with
  | M_log_ready =>
      Some (set_main M_store_healthy (Println ["Server is ready to handle requests at"; listenAddr sc] p))
  | M_store_healthy =>
      Some (set_main M_ListenAndServe (StoreInt32_healthy 1 p))
  | M_ListenAndServe =>
      if p_inShutdown p then
        (* ErrServerClosed: not fatal *)
        Some (set_main M_wait_done p)
      else
        match listen_error sc with
        | Some err =>
            Some (Fatalf ("Could not listen on " +:+ listenAddr sc +:+ ": " +:+ err
                          +:+ Http.newline) p)
        | None => Some (set_main M_serving (set_listening true p))
        end
  | M_serving =>
      (* Serve returns ErrServerClosed once Shutdown has closed the listener *)
      if p_inShutdown p then Some (set_main M_wait_done p) else None
  | M_wait_done =>
      if p_done p then Some (set_main M_log_stopped p) else None
  | M_log_stopped =>
      (* main returns: the process ends with status 0 *)
      Some (set_exit (Some 0%Z) (set_main M_returned (Println ["Server stopped"] p)))
  | M_returned => None
  end.

(** One statement of the goroutine; [None] when it is blocked or done. *)
Definition step_watcher (p : Proc) : option Proc :=
  match p_watcher p with
  | W_recv_quit =>
      match p_quit p with
      | _ :: rest => Some (set_watcher W_log_shutting (set_chans (p_cancel p) rest p))
      | [] => None
      end
  | W_log_shutting =>
      Some (set_watcher W_store_healthy (Println ["Server is shutting down..."] p))
  | W_store_healthy =>
      Some (set_watcher W_make_ctx (StoreInt32_healthy 0 p))
  | W_make_ctx =>
      Some (set_watcher W_keepalives (set_ctx_timeout (Some shutdownTimeout) p))
  | W_keepalives =>
      Some (set_watcher W_call_Shutdown (set_keepAlives false p))
  | W_call_Shutdown =>
      Some (set_watcher W_in_Shutdown (set_listening false (set_inShutdown true p)))
  | W_in_Shutdown =>
      match Shutdown_err (shutdown_result sc) with
      | Some err =>
          Some (Fatalf ("Could not gracefully shutdown the server: " +:+ err
                        +:+ Http.newline) p)
      | None => Some (set_watcher W_close_done p)
      end
  | W_close_done =>
      Some (set_watcher W_finished (set_done true p))
  | W_finished => None
  end.

(** Nothing happens in a process that has exited. *)
Definition step (e : Event) (p : Proc) : option Proc :=
  match p_exit p with
  | Some _ => None
  | None =>
      match e with
      | Deliver sig => Some (deliver sig p)
      | StepMain => step_main p
      | StepWatcher => step_watcher p
      end
  end.

(** An event that is not enabled leaves the process as it is. *)
Definition exec (p : Proc) (e : Event) : Proc := default p (step e p).

Definition run (evs : list Event) (p : Proc) : Proc := foldl exec p evs.
End Steps.

(** The goroutine has not been woken: it waits in front of [<-quit] and
    nothing of the shutdown sequence has happened. *)
Definition idle (p : Proc) : Prop :=
  p_watcher p = W_recv_quit ∧ p_quit p = [] ∧ p_inShutdown p = false
  ∧ p_keepAlives p = true ∧ p_ctx_timeout p = None ∧ 0%Z ∉ p_stores p.

(** The writes to [healthy] so far, told from where the two goroutines
    stand: none, the one of [main], the one of the goroutine, or both in
    either order. *)
Definition stores_agree (p : Proc) : Prop :=
  match main_has_stored (p_main p), watcher_has_stored (p_watcher p) with
  | false, false => p_stores p = []
  | true, false => p_stores p = [1%Z]
  | false, true => p_stores p = [0%Z]
  | true, true => p_stores p = [1%Z; 0%Z] ∨ p_stores p = [0%Z; 1%Z]
  end.

(** The flag holds the value stored last. *)
Definition flag_inv (p : Proc) : Prop :=
  p_healthy p = default 0%Z (last (p_stores p)) ∧ stores_agree p.

(** What the exit status says about the run. *)
Definition exit_explained (sc : Scenario) (p : Proc) : Prop :=
  (p_exit p = None ∨ p_exit p = Some 0%Z ∨ p_exit p = Some 1%Z)
  ∧ (p_exit p = Some 0%Z →
       Shutdown_err (shutdown_result sc) = None ∧ p_done p = true
       ∧ p_main p = M_returned)
  ∧ (p_exit p = Some 1%Z →
       (is_Some (listen_error sc) ∧ p_main p = M_ListenAndServe)
       ∨ (is_Some (Shutdown_err (shutdown_result sc)) ∧ p_watcher p = W_in_Shutdown)).

(** How far the shutdown sequence has got, told from where the goroutine
    stands; and where [main] stands while the listener accepts. *)
Definition sequence_inv (p : Proc) : Prop :=
  (p_ctx_timeout p = (if bool_decide (p_watcher p ∈ [W_recv_quit; W_log_shutting;
                                                      W_store_healthy; W_make_ctx])
                      then None else Some shutdownTimeout))
  ∧ (p_keepAlives p = bool_decide (p_watcher p ∈ [W_recv_quit; W_log_shutting;
                                                  W_store_healthy; W_make_ctx;
                                                  W_keepalives]))
  ∧ (p_inShutdown p = bool_decide (p_watcher p ∈ [W_in_Shutdown; W_close_done;
                                                  W_finished]))
  ∧ (p_done p = bool_decide (p_watcher p = W_finished))
  ∧ (p_listening p = true → p_main p = M_serving ∧ p_inShutdown p = false).

(** [exit_explained], with what is needed to carry it from state to state. *)
Definition exit_inv (sc : Scenario) (p : Proc) : Prop :=
  exit_explained sc p
  ∧ (p_done p = true → Shutdown_err (shutdown_result sc) = None)
  ∧ (p_watcher p = W_close_done ∨ p_watcher p = W_finished →
       Shutdown_err (shutdown_result sc) = None)
  ∧ (p_main p = M_log_stopped ∨ p_main p = M_returned → p_done p = true)
  ∧ (p_exit p = None → p_main p ≠ M_returned).

End Lifecycle.

(* ===================================================================== *)
(** ** Concrete environments and requests used in the examples *)
(* ===================================================================== *)

Module Sample.
Import Http.

(** A static directory whose files are not looked at by any example. *)
Definition no_files : string → Handler := fun root => NotFoundHandler.

(** The template has one placeholder; the cache is down. *)
Definition env_standalone : Env :=
  {| redisAddr := "redis:6379";
     ReadFile := fun name => (b "<h2>{{LEAD}}</h2>", None);
     Ping := fun addr => PingError "dial tcp: connection refused";
     FileServer := no_files |}.

(** The same template; the cache answers. *)
Definition env_connected : Env :=
  {| redisAddr := "redis:6379";
     ReadFile := fun name => (b "<h2>{{LEAD}}</h2>", None);
     Ping := fun addr => PingReply "PONG";
     FileServer := no_files |}.

(** The template cannot be opened; the cache answers. *)
Definition env_unreadable : Env :=
  {| redisAddr := "redis:6379";
     ReadFile := fun name => ([], Some "open ./static/index.html: no such file or directory");
     Ping := fun addr => PingReply "PONG";
     FileServer := no_files |}.

Definition request (method path : string) (header : Header) : Request :=
  {| Method := method; URL_Path := path; URL_RawQuery := ""; URL_ForceQuery := false;
     RequestURI := path;
     ProtoMajor := 1; ProtoMinor := 1; ReqHeader := header;
     RemoteAddr := "10.0.0.7:51234"; Ctx := Background |}.


Definition world (flag : Z) : World :=
  {| rw := newResponse; stdout := []; healthy := flag; now := 1700000000000000000 |}.

(** Runs of the process: the port is free and every connection drains;
    a handler hangs beyond the deadline; the port is taken. *)
Definition sc_clean : Lifecycle.Scenario :=
  {| Lifecycle.listenAddr := "0.0.0.0:5000"; Lifecycle.listen_error := None;
     Lifecycle.shutdown_result := Lifecycle.Drained |}.

Definition sc_hanging : Lifecycle.Scenario :=
  {| Lifecycle.listenAddr := "0.0.0.0:5000"; Lifecycle.listen_error := None;
     Lifecycle.shutdown_result := Lifecycle.DeadlineExceeded |}.

Definition sc_port_taken : Lifecycle.Scenario :=
  {| Lifecycle.listenAddr := "0.0.0.0:5000";
     Lifecycle.listen_error := Some "listen tcp 0.0.0.0:5000: bind: address already in use";
     Lifecycle.shutdown_result := Lifecycle.Drained |}.

(** Start-up until the listener accepts, then a signal, then the
    goroutine's statements up to and including the return of Shutdown. *)
Definition startup : list Lifecycle.Event :=
  [Lifecycle.StepMain; Lifecycle.StepMain; Lifecycle.StepMain].

Definition shutdown_on (sig : Lifecycle.Signal) : list Lifecycle.Event :=
  Lifecycle.Deliver sig :: replicate 7 Lifecycle.StepWatcher.

End Sample.

(* ===================================================================== *)
(** * Properties *)
(* ===================================================================== *)

(** ** Byte strings *)

Section StringFacts.
Import GoStrings.
Implicit Types s sub old new m pre post : bytes.

Lemma HasPrefix_true s pre : HasPrefix s pre = true ↔ ∃ rest, s = pre ++ rest.
Proof.
  revert s. induction pre as [|p pre IH]; intros s; simpl.
  - split; [eauto | done].
  - destruct s as [|c s].
    + split; [done | intros [rest ?]; done].
    + case_decide as Hc.
      * subst c. rewrite IH. split; intros [rest Hr]; exists rest; congruence.
      * split; [done | intros [rest Hr]; congruence].
Qed.

Lemma Index_found s sub j :
  Index s sub = Some j →
  s = take j s ++ sub ++ drop (j + length sub) s
  ∧ ∀ pre post, s = pre ++ sub ++ post → (j ≤ length pre)%nat.
Proof.
  revert j. induction s as [|c s IH]; intros j; simpl.
  - destruct (HasPrefix [] sub) eqn:Hp; [|done].
    intros [= <-]. apply HasPrefix_true in Hp as [rest Hr].
    destruct sub; [|done]. split; [done | intros; lia].
  - destruct (HasPrefix (c :: s) sub) eqn:Hp.
    + intros [= <-]. apply HasPrefix_true in Hp as [rest Hr].
      split; [|intros; lia]. simpl. rewrite Hr at 1.
      f_equal. rewrite Hr, drop_app_length. done.
    + destruct (Index s sub) as [i|] eqn:Hi; [|done].
      intros [= <-]. destruct (IH i eq_refl) as [Heq Hmin].
      split.
      * simpl. f_equal. done.
      * intros pre post Hs. destruct pre as [|x pre].
        -- assert (HasPrefix (c :: s) sub = true) as Hp'
             by (apply HasPrefix_true; exists post; done).
           congruence.
        -- simpl in Hs. injection Hs as -> Hs. apply Hmin in Hs. simpl. lia.
Qed.

Lemma Index_absent s sub : Index s sub = None → ¬ occurs sub s.
Proof.
  induction s as [|c s IH]; simpl.
  - destruct (HasPrefix [] sub) eqn:Hp; [done|]. intros _ (pre & post & Hs).
    destruct pre; [|done]. destruct sub; [done | done].
  - destruct (HasPrefix (c :: s) sub) eqn:Hp; [done|].
    destruct (Index s sub) eqn:Hi; [done|]. intros _ (pre & post & Hs).
    destruct pre as [|x pre].
    + assert (HasPrefix (c :: s) sub = true) as Hp'
        by (apply HasPrefix_true; exists post; done).
      congruence.
    + simpl in Hs. injection Hs as -> Hs. apply IH; [done|]. by exists pre, post.
Qed.

Lemma Contains_occurs s sub : Contains s sub = true ↔ occurs sub s.
Proof.
  unfold Contains. destruct (Index s sub) as [j|] eqn:Hi.
  - split; [|done]. intros _. apply Index_found in Hi as [Heq _].
    by exists (take j s), (drop (j + length sub) s).
  - split; [done|]. intros Ho. by apply Index_absent in Ho.
Qed.

Lemma not_Contains_occurs s sub : Contains s sub = false ↔ ¬ occurs sub s.
Proof. rewrite <- Contains_occurs. destruct (Contains s sub); naive_solver. Qed.

(** An occurrence found by [Index] leaves a strictly shorter rest. *)
Lemma Index_rest_shorter s sub j :
  sub ≠ [] → Index s sub = Some j →
  (length (drop (j + length sub) s) < length s)%nat.
Proof.
  intros Hne Hi. apply Index_found in Hi as [Heq _].
  assert (length s = length (take j s ++ sub ++ drop (j + length sub) s)) as Hl
    by congruence.
  rewrite !length_app in Hl. destruct sub; [done|]. simpl in *.
  rewrite length_drop in *. lia.
Qed.

Lemma Index_nil sub : sub ≠ [] → Index [] sub = None.
Proof. destruct sub; done. Qed.

Lemma Count_loop_fuel sub fuel1 fuel2 s :
  sub ≠ [] → (length s ≤ fuel1)%nat → (length s ≤ fuel2)%nat →
  Count_loop fuel1 s sub = Count_loop fuel2 s sub.
Proof.
  intros Hne. revert fuel2 s.
  induction fuel1 as [|fuel1 IH]; intros fuel2 s H1 H2.
  - destruct s; [|simpl in H1; lia].
    destruct fuel2; cbn [Count_loop]; [done|]. by rewrite Index_nil.
  - destruct fuel2 as [|fuel2].
    + destruct s; [|simpl in H2; lia]. cbn [Count_loop]. by rewrite Index_nil.
    + cbn [Count_loop]. destruct (Index s sub) as [i|] eqn:Hi; [|done].
      f_equal. pose proof (Index_rest_shorter _ _ _ Hne Hi). apply IH; lia.
Qed.

Lemma Count_unfold s sub :
  sub ≠ [] →
  Count s sub = match Index s sub with
                | None => O
                | Some i => S (Count (drop (i + length sub) s) sub)
                end.
Proof.
  intros Hne. unfold Count. destruct (Index s sub) as [i|] eqn:Hi.
  - pose proof (Index_rest_shorter _ _ _ Hne Hi) as Hlt.
    destruct (length s) as [|n] eqn:Hl; [lia|].
    simpl. rewrite Hi. f_equal. apply Count_loop_fuel; [done| lia | lia].
  - destruct (length s); simpl; [done|]. by rewrite Hi.
Qed.

(** [Replace] is the familiar recursion: copy up to the first
    occurrence, put [new], go on behind the occurrence. *)
Lemma Replace_unfold s old new :
  old ≠ [] → old ≠ new →
  Replace s old new =
    match Index s old with
    | None => s
    | Some j => take j s ++ new ++ Replace (drop (j + length old) s) old new
    end.
Proof.
  intros Hne Hon.
  assert (∀ t, Replace t old new = Replace_loop (Count t old) t old new) as Hloop.
  { intros t. unfold Replace. rewrite decide_False by done.
    by destruct (Count t old). }
  rewrite Hloop, Count_unfold by done.
  destruct (Index s old) as [j|] eqn:Hi; [|done].
  simpl. rewrite Hi, Hloop. done.
Qed.
End StringFacts.

(** ** What replacement does to occurrences *)

Section Replacement.
Import GoStrings.
Implicit Types s m new old a c : bytes.

Lemma foreign_to_inv m new :
  foreign_to m new = true →
  ∃ x new' y, new = x :: new' ∧ last new = Some y ∧ (x ∉ m) ∧ (y ∉ m) ∧ ¬ occurs m new.
Proof.
  unfold foreign_to. destruct new as [|x new']; [done|].
  change (head (x :: new')) with (Some x).
  destruct (last (x :: new')) as [y|] eqn:Hl; [|done].
  rewrite !andb_true_iff, !negb_true_iff, !bool_decide_eq_false.
  intros [[Hx Hy] Hc]. apply not_Contains_occurs in Hc.
  by exists x, new', y.
Qed.

(** An occurrence of a foreign [m] in [a ++ new ++ c] lies in [a] or in [c]. *)
Lemma occurs_around m new a c :
  foreign_to m new = true →
  occurs m (a ++ new ++ c) → occurs m a ∨ occurs m c.
Proof.
  intros (x & new' & y & Hnew & Hlast & Hx & Hy & Hin)%foreign_to_inv.
  intros (pre & post & Heq).
  apply app_eq_inv in Heq as [(k & Ha & Hk)|(k & Hpre & Hk)].
  - (* the occurrence starts inside [a] *)
    apply app_eq_inv in Hk as [(k' & Hm & Hk')|(k' & Hk' & Hpost)].
    + destruct k' as [|z k'].
      * left. exists pre, []. rewrite app_nil_r in Hm. subst. by rewrite app_nil_r.
      * exfalso. apply Hx. rewrite Hnew in Hk'. simpl in Hk'. injection Hk' as -> _.
        rewrite Hm. set_solver.
    + left. exists pre, k'. by subst.
  - (* the occurrence starts at or behind the start of [new] *)
    apply app_eq_inv in Hk as [(k' & Hn & Hk')|(k' & Hk' & Hc)].
    + apply app_eq_inv in Hk' as [(k'' & Hm & Hc)|(k'' & Hk'' & Hpost)].
      * destruct k' as [|z k' _] using rev_ind.
        -- right. exists [], post. by subst.
        -- exfalso. apply Hy. rewrite Hn, app_assoc, last_snoc in Hlast.
           injection Hlast as <-. rewrite Hm. set_solver.
      * exfalso. apply Hin. exists k, k''. by subst.
    + right. exists k', post. done.
Qed.

Lemma occurs_take m s j : occurs m (take j s) → occurs m s.
Proof.
  intros (pre & post & Heq). exists pre, (post ++ drop j s).
  rewrite <- (take_drop j s) at 1. rewrite Heq. by rewrite <- !app_assoc.
Qed.

Lemma occurs_drop m s j : occurs m (drop j s) → occurs m s.
Proof.
  intros (pre & post & Heq). exists (take j s ++ pre), post.
  rewrite <- (take_drop j s) at 1. rewrite Heq. by rewrite <- !app_assoc.
Qed.

(** [Index] finds the leftmost occurrence: there is none before it. *)
Lemma Index_leftmost s old j :
  old ≠ [] → Index s old = Some j → ¬ occurs old (take j s).
Proof.
  intros Hne Hi (pre & post & Heq).
  apply Index_found in Hi as [Hs Hmin].
  assert (s = pre ++ old ++ (post ++ drop j s)) as Hs'.
  { rewrite <- (take_drop j s) at 1. rewrite Heq. by rewrite <- !app_assoc. }
  apply Hmin in Hs'.
  assert (length (take j s) = length (pre ++ old ++ post)) as Hl by congruence.
  rewrite length_take, !length_app in Hl. destruct old; [done|]. simpl in Hl. lia.
Qed.

(** Replacement creates no occurrence of a foreign [m]. *)
Lemma Replace_occurs_inv m s old new :
  old ≠ [] → old ≠ new → foreign_to m new = true →
  occurs m (Replace s old new) → occurs m s.
Proof.
  intros Hne Hon Hf. remember (length s) as n eqn:Hn. revert s Hn.
  induction n as [n IH] using lt_wf_ind. intros s -> Ho.
  rewrite Replace_unfold in Ho by done.
  destruct (Index s old) as [j|] eqn:Hi; [|done].
  apply occurs_around in Ho as [Ho|Ho]; [|apply (IH _ (Index_rest_shorter _ _ _ Hne Hi) _ eq_refl) in Ho|done].
  - by eapply occurs_take.
  - by eapply occurs_drop.
Qed.

(** When [old] is itself foreign to [new], nothing of it is left. *)
Lemma Replace_removes_old s old new :
  old ≠ [] → old ≠ new → foreign_to old new = true →
  ¬ occurs old (Replace s old new).
Proof.
  intros Hne Hon Hf. remember (length s) as n eqn:Hn. revert s Hn.
  induction n as [n IH] using lt_wf_ind. intros s -> Ho.
  rewrite Replace_unfold in Ho by done.
  destruct (Index s old) as [j|] eqn:Hi; [|by apply Index_absent in Hi].
  apply occurs_around in Ho as [Ho|Ho]; [| |done].
  - by apply Index_leftmost in Hi.
  - by apply (IH _ (Index_rest_shorter _ _ _ Hne Hi) _ eq_refl) in Ho.
Qed.

(** Every text with an occurrence of [old] gets a copy of [new]. *)
Lemma Replace_inserts_new s old new :
  old ≠ [] → old ≠ new → occurs old s → occurs new (Replace s old new).
Proof.
  intros Hne Hon Ho. rewrite Replace_unfold by done.
  destruct (Index s old) as [j|] eqn:Hi; [|by apply Index_absent in Hi].
  by eexists (take j s), _.
Qed.

(** A text without [old] is returned as it is. *)
Lemma Replace_absent s old new : ¬ occurs old s → Replace s old new = s.
Proof.
  intros Ho. unfold Replace. case_decide; [done|].
  unfold Count. destruct (length s) as [|n]; [done|]. simpl.
  destruct (Index s old) as [j|] eqn:Hi; [|done].
  exfalso. apply Ho. apply Contains_occurs. unfold Contains. by rewrite Hi.
Qed.

Lemma occurs_trans m m' s : occurs m m' → occurs m' s → occurs m s.
Proof.
  intros (p1 & q1 & ->) (p2 & q2 & ->). exists (p2 ++ p1), (q1 ++ q2).
  by rewrite <- !app_assoc.
Qed.
Lemma Index_at_start s sub : HasPrefix s sub = true → Index s sub = Some 0%nat.
Proof. intros H. destruct s; cbn [Index]; by rewrite H. Qed.

(** The first occurrence is where the text says it is, when nothing
    before it starts like [old]. *)
Lemma Index_behind (ch : ascii) (old' pre post : bytes) :
  ch ∉ pre → Index (pre ++ (ch :: old') ++ post) (ch :: old') = Some (length pre).
Proof.
  intros Hc. induction pre as [|x pre IH].
  - apply Index_at_start, HasPrefix_true. by eexists.
  - cbn [app length Index]. cbn [HasPrefix].
    rewrite decide_False by set_solver.
    cbn [app] in IH. rewrite IH by set_solver. done.
Qed.
End Replacement.

(** ** The response writer *)

Section WriterFacts.
Import Http.

Lemma Write_fresh data σ :
  rw_sent (rw σ) = None →
  Write data σ =
    {| rw := {| rw_header := rw_header (rw σ);
                rw_sent := Some (StatusOK, rw_header (rw σ));
                rw_body := rw_body (rw σ) ++ data |};
       stdout := stdout σ; healthy := healthy σ; now := now σ |}.
Proof. intros Hs. unfold Write. rewrite Hs. done. Qed.

Lemma WriteHeader_fresh caller code σ :
  rw_sent (rw σ) = None → WriteHeader caller code σ = on_rw (rw_commit code) σ.
Proof. intros Hs. unfold WriteHeader. by rewrite Hs. Qed.


Lemma b_app s1 s2 : b (s1 +:+ s2) = b s1 ++ b s2.
Proof. unfold b. induction s1 as [|c s1 IH]; simpl; [done|]. by rewrite <- IH. Qed.

Lemma b_inj s1 s2 : b s1 = b s2 → s1 = s2.
Proof.
  intros H. rewrite <- (String.string_of_list_ascii_of_string s1),
    <- (String.string_of_list_ascii_of_string s2). unfold b in H. by rewrite H.
Qed.

(** A path with a slash appended is none of the patterns that do not end
    in one. *)
Lemma append_slash_ne p q : last (b q) ≠ Some slash → p +:+ "/" ≠ q.
Proof.
  intros Hq Heq. apply Hq. rewrite <- Heq, b_app.
  change (b "/") with [slash]. apply last_snoc.
Qed.

(** [cleanPath] always yields a rooted path. *)
Lemma cleanPath_bytes_rooted p : ∃ rest, cleanPath_bytes p = slash :: rest.
Proof.
  unfold cleanPath_bytes. destruct p as [|c p]; [by eexists|].
  set (q := if decide (c = slash) then c :: p else slash :: c :: p).
  assert (∃ q', q = slash :: q') as [q' Hq].
  { unfold q. case_decide; [subst c|]; by eexists. }
  clearbody q. subst q.
  assert (∃ np', path_Clean (slash :: q') = slash :: np') as [np' Hnp] by by eexists.
  rewrite Hnp. repeat case_decide; [destruct (GoStrings.HasPrefix _ _)| |]; by eexists.
Qed.

Lemma cleanPath_rooted p : ∃ rest, cleanPath p = String slash rest.
Proof.
  unfold cleanPath. destruct (cleanPath_bytes_rooted (b p)) as [rest ->].
  by eexists.
Qed.
End WriterFacts.

(** ** The router of [main] *)

Section RouterFacts.
Import Http.
Variable env : Env.

Lemma router_exact_none p :
  p ≠ "/style.css" → p ≠ "/background.jpg" → p ≠ "/" →
  lookup_exact (router env) p = None.
Proof.
  intros H1 H2 H3. unfold router, Handle. cbn [app lookup_exact me_pattern].
  by rewrite !decide_False.
Qed.

(** Every rooted path other than the two asset paths falls to the
    pattern ["/"], that is, to the page handler. *)
Lemma router_handler rest :
  String slash rest ≠ "/style.css" → String slash rest ≠ "/background.jpg" →
  mux_handler (router env) (String slash rest) = handler env.
Proof.
  intros H1 H2. unfold mux_handler, mux_match.
  destruct (decide (String slash rest = "/")) as [Heq|Hne].
  - rewrite Heq. reflexivity.
  - rewrite router_exact_none by done. reflexivity.
Qed.

Lemma router_no_slash_redirect rest :
  String slash rest ≠ "/style.css" → String slash rest ≠ "/background.jpg" →
  shouldRedirect (router env) (String slash rest) = false.
Proof.
  intros H1 H2. unfold shouldRedirect.
  destruct (decide (String slash rest = "/")) as [Heq|Hne].
  - rewrite Heq. reflexivity.
  - rewrite router_exact_none by done. rewrite decide_False by done.
    rewrite router_exact_none; [done|..].
    + apply append_slash_ne. by vm_compute.
    + apply append_slash_ne. by vm_compute.
    + intros [= Hrest]. by destruct rest.
Qed.

(** The handler the mux picks for a canonical path that is not an asset:
    the same for every method. *)
Lemma ServeMux_Handler_page r :
  cleanPath (URL_Path r) = URL_Path r →
  URL_Path r ≠ "/style.css" → URL_Path r ≠ "/background.jpg" →
  ServeMux_Handler (router env) r = handler env.
Proof.
  intros Hc H1 H2. destruct (cleanPath_rooted (URL_Path r)) as [rest Hr].
  rewrite Hc in Hr. unfold ServeMux_Handler. rewrite Hc.
  rewrite Hr in *. rewrite router_no_slash_redirect, router_handler by done.
  case_decide; [done|]. rewrite decide_False; [done|]. by intros [].
Qed.

End RouterFacts.

(** ** One request through the server *)

Section ServeFacts.
Import Http.
Variable env : Env.

(** The whole exchange for a canonical path that is not an asset: the
    correlation header, status 200 with the rendered page, one log line. *)
Lemma serve_page r σ :
  RequestURI r ≠ "*" →
  cleanPath (URL_Path r) = URL_Path r →
  URL_Path r ≠ "/style.css" → URL_Path r ≠ "/background.jpg" →
  let got := Header_Get (ReqHeader r) "X-Request-Id" in
  let id := if decide (got = "") then nextRequestID σ else got in
  serve env r σ =
    (Returned,
     {| rw := {| rw_header := Header_Set ∅ "X-Request-Id" id;
                 rw_sent := Some (StatusOK, Header_Set ∅ "X-Request-Id" id);
                 rw_body := render env (ReadFile env "./static/index.html").1 |};
        stdout := stdout σ ++
                  [{| line_prefix := "http: ";
                      line_text := Sprintln [id; Method r; URL_Path r; RemoteAddr r;
                                             UserAgent r] |}];
        healthy := healthy σ; now := now σ |}).
Proof.
  intros Hstar Hc H1 H2 got id. unfold serve.
  rewrite decide_False by (by intros [? _]).
  unfold server_Handler, tracing, logging, defer, ServeMux_ServeHTTP.
  cbn [RequestURI WithContext]. rewrite decide_False by done.
  rewrite ServeMux_Handler_page by done.
  unfold handler. destruct (ReadFile env "./static/index.html") as [data err].
  cbn [Ctx WithContext Value]. rewrite decide_True by done.
  cbn [assert_string]. reflexivity.
Qed.
End ServeFacts.

(** ** The health handler and the health path *)

Section Health.
Import Http.

(** The handler [healthz] itself: 204 when the flag is 1, 503 otherwise,
    and nothing is written to the body. *)
Lemma healthz_reports_flag r σ :
  rw_sent (rw σ) = None →
  (healthz r σ).1 = Returned
  ∧ rw_status (rw (healthz r σ).2)
    = Some (if decide (healthy σ = 1%Z) then StatusNoContent else StatusServiceUnavailable)
  ∧ rw_body (rw (healthz r σ).2) = rw_body (rw σ).
Proof.
  intros Hs. unfold healthz, rw_status.
  case_decide; cbn [fst snd]; rewrite WriteHeader_fresh by done; done.
Qed.

(** C1 (as the code has it): [healthz] is never registered with the
    router, so a request for [/healthz] is a request for the page: status
    200 and the rendered greeting, whatever the liveness flag says. *)
Theorem healthz_path_serves_page env r σ :
  URL_Path r = "/healthz" → RequestURI r = "/healthz" →
  (serve env r σ).1 = Returned
  ∧ rw_status (rw (serve env r σ).2) = Some StatusOK
  ∧ rw_body (rw (serve env r σ).2) = render env (ReadFile env "./static/index.html").1.
Proof.
  intros Hp Hu.
  assert (RequestURI r ≠ "*") as H0 by (by rewrite Hu).
  assert (cleanPath (URL_Path r) = URL_Path r) as H1 by (by rewrite Hp).
  assert (URL_Path r ≠ "/style.css") as H2 by (by rewrite Hp).
  assert (URL_Path r ≠ "/background.jpg") as H3 by (by rewrite Hp).
  by rewrite (serve_page env r σ H0 H1 H2 H3).
Qed.

Lemma healthz_path_serves_page_witness :
  rw_status (rw (serve Sample.env_standalone
                   (Sample.request "GET" "/healthz" ∅) (Sample.world 1)).2)
  = Some 200%Z.
Proof.
  exact (proj1 (proj2 (healthz_path_serves_page Sample.env_standalone
                         (Sample.request "GET" "/healthz" ∅) (Sample.world 1)
                         eq_refl eq_refl))).
Defined.
End Health.

(** ** The connectivity probe *)

Section Probe.
Import Http.

(** C7: the probe answers [true] exactly for the reply [PONG], [false] for
    every error and every other reply; it is a total function into [bool],
    and the page handler that calls it always returns. *)
Theorem testRedisConnection_spec env addr :
  (testRedisConnection env addr = true ↔ Ping env addr = PingReply "PONG")
  ∧ (∀ err, Ping env addr = PingError err → testRedisConnection env addr = false)
  ∧ (∀ status, Ping env addr = PingReply status → status ≠ "PONG" →
       testRedisConnection env addr = false)
  ∧ (∀ r σ, (handler env r σ).1 = Returned).
Proof.
  unfold testRedisConnection. repeat split.
  - destruct (Ping env addr) as [status|err]; simpl; try case_decide; naive_solver.
  - by intros ->.
  - intros err ->. done.
  - intros status -> Hne. simpl. by rewrite decide_False.
  - intros r σ. unfold handler. by destruct (ReadFile env _).
Qed.
End Probe.

(** ** The page handler *)

Section Page.
Import Http GoStrings.

Lemma placeholder_not_lead probe :
  placeholder ≠ [] ∧ placeholder ≠ (if probe : bool then leadConnected else leadStandalone).
Proof. by destruct probe. Qed.

(** Neither the placeholder nor the word of the other greeting can
    overlap the greeting that is put in. *)
Lemma placeholder_foreign probe :
  foreign_to placeholder (if probe : bool then leadConnected else leadStandalone) = true.
Proof. destruct probe; by vm_compute. Qed.

Lemma other_mark_foreign probe :
  foreign_to (if probe : bool then markStandalone else markConnected)
             (if probe then leadConnected else leadStandalone) = true.
Proof. destruct probe; by vm_compute. Qed.

Lemma lead_has_mark probe :
  occurs (if probe : bool then markConnected else markStandalone)
         (if probe then leadConnected else leadStandalone).
Proof. apply Contains_occurs. destruct probe; by vm_compute. Qed.

(** What [handler] leaves in a response nothing has been written to. *)
Lemma handler_fresh env r σ :
  rw_sent (rw σ) = None →
  handler env r σ =
    (Returned,
     {| rw := {| rw_header := rw_header (rw σ);
                 rw_sent := Some (StatusOK, rw_header (rw σ));
                 rw_body := rw_body (rw σ)
                            ++ render env (ReadFile env "./static/index.html").1 |};
        stdout := stdout σ; healthy := healthy σ; now := now σ |}).
Proof.
  intros Hs. unfold handler. destruct (ReadFile env _) as [data err].
  by rewrite Write_fresh.
Qed.

(** C5 (amended): on a fresh response the body never contains the
    placeholder; when the template contains the placeholder, the body
    contains the greeting chosen by the probe (the connected one for
    [true], the standalone one for [false]) and with it that greeting's
    word; the word of the other greeting is in the body only if the
    template itself contains it; and a template without the placeholder
    is the body, byte for byte. *)
Theorem handler_renders_greeting env r σ :
  rw_sent (rw σ) = None → rw_body (rw σ) = [] →
  let template := (ReadFile env "./static/index.html").1 in
  let probe := testRedisConnection env (redisAddr env) in
  let body := rw_body (rw (handler env r σ).2) in
  ¬ occurs placeholder body
  ∧ (occurs placeholder template →
       occurs (if probe then leadConnected else leadStandalone) body
       ∧ occurs (if probe then markConnected else markStandalone) body)
  ∧ (¬ occurs (if probe then markStandalone else markConnected) template →
       ¬ occurs (if probe then markStandalone else markConnected) body)
  ∧ (¬ occurs placeholder template → body = template).
Proof.
  intros Hs Hb template probe body.
  assert (body = Replace template placeholder
                   (if probe then leadConnected else leadStandalone)) as ->.
  { unfold body. rewrite handler_fresh by done. cbn. rewrite Hb. done. }
  destruct (placeholder_not_lead probe) as [Hne Hon].
  split; [|split; [|split]].
  4:{ intros Hno. by apply Replace_absent. }
  - apply Replace_removes_old; [done..|apply placeholder_foreign].
  - intros Ho. assert (occurs (if probe then leadConnected else leadStandalone)
                         (Replace template placeholder
                            (if probe then leadConnected else leadStandalone))) as Hl
      by by apply Replace_inserts_new.
    split; [done|]. eapply occurs_trans; [apply lead_has_mark|done].
  - intros Hno Ho. apply Hno.
    eapply Replace_occurs_inv; [done..|apply other_mark_foreign|done].
Qed.

Lemma handler_renders_greeting_witness :
  let body := rw_body (rw (handler Sample.env_standalone
                             (Sample.request "GET" "/" ∅) (Sample.world 1)).2) in
  ¬ occurs placeholder body
  ∧ (occurs placeholder (b "<h2>{{LEAD}}</h2>") →
       occurs leadStandalone body ∧ occurs markStandalone body)
  ∧ (¬ occurs markConnected (b "<h2>{{LEAD}}</h2>") → ¬ occurs markConnected body)
  ∧ (¬ occurs placeholder (b "<h2>{{LEAD}}</h2>") → body = b "<h2>{{LEAD}}</h2>").
Proof.
  exact (handler_renders_greeting Sample.env_standalone
           (Sample.request "GET" "/" ∅) (Sample.world 1) eq_refl eq_refl).
Defined.

(** C5 (as stated, refuted): with a template that cannot be read the
    probe succeeds and the body holds neither greeting. *)
Lemma unreadable_template_has_no_greeting :
  testRedisConnection Sample.env_unreadable (redisAddr Sample.env_unreadable) = true
  ∧ Contains (rw_body (rw (handler Sample.env_unreadable
                             (Sample.request "GET" "/" ∅) (Sample.world 1)).2))
             markConnected = false
  ∧ Contains (rw_body (rw (handler Sample.env_unreadable
                             (Sample.request "GET" "/" ∅) (Sample.world 1)).2))
             markStandalone = false.
Proof. by vm_compute. Qed.

(** C8: when reading the template fails, the handler still returns, the
    status is the default 200, and the body is what could be read (none,
    or a part) with its placeholders replaced. *)
Theorem handler_survives_read_failure env r σ data err :
  ReadFile env "./static/index.html" = (data, Some err) →
  rw_sent (rw σ) = None →
  (handler env r σ).1 = Returned
  ∧ rw_status (rw (handler env r σ).2) = Some StatusOK
  ∧ rw_body (rw (handler env r σ).2) = rw_body (rw σ) ++ render env data.
Proof.
  intros Hr Hs. rewrite handler_fresh by done. by rewrite Hr.
Qed.

Lemma handler_survives_read_failure_witness :
  (handler Sample.env_unreadable (Sample.request "GET" "/" ∅) (Sample.world 1)).1
  = Returned
  ∧ rw_status (rw (handler Sample.env_unreadable
                     (Sample.request "GET" "/" ∅) (Sample.world 1)).2) = Some 200%Z
  ∧ rw_body (rw (handler Sample.env_unreadable
                   (Sample.request "GET" "/" ∅) (Sample.world 1)).2) = [].
Proof.
  exact (handler_survives_read_failure Sample.env_unreadable
           (Sample.request "GET" "/" ∅) (Sample.world 1) []
           "open ./static/index.html: no such file or directory" eq_refl eq_refl).
Defined.
End Page.

(** ** The middlewares *)

Section Middleware.
Import Http.


(** The line is written when the wrapped handler panics. *)
Lemma logging_logs_on_panic logger r σ v stack :
  let failing : Handler := fun _ σ => (Panicked v stack, σ) in
  (logging logger failing r σ).1 = Panicked v stack
  ∧ length (stdout (logging logger failing r σ).2) = S (length (stdout σ)).
Proof.
  intros failing. unfold logging, defer, failing, Println. cbn [fst snd stdout].
  destruct (assert_string _) as [s ok]. cbn [fst snd stdout].
  rewrite length_app. cbn. split; [done|lia].
Qed.

(** C6 (amended): the identifier is the first value [V] of the request's
    X-Request-Id header when that value is not empty, and the generated
    one when the header is missing or its first value is empty.  The
    wrapped handler is called exactly once, with that identifier set as
    the only X-Request-Id value of the response header and bound to
    [requestIDKey] in the context of the request; everything else is
    handed on unchanged. *)
Theorem tracing_request_id gen next r σ :
  let passes id :=
    ∃ r' σ',
      tracing gen next r σ = next r' σ'
      ∧ rw_header (rw σ') !! "X-Request-Id" = Some [id]
      ∧ Value (Ctx r') requestIDKey = Some (AString id)
      ∧ (Method r', URL_Path r', RequestURI r', ReqHeader r', RemoteAddr r')
        = (Method r, URL_Path r, RequestURI r, ReqHeader r, RemoteAddr r)
      ∧ (rw_sent (rw σ'), rw_body (rw σ'), stdout σ', healthy σ', now σ')
        = (rw_sent (rw σ), rw_body (rw σ), stdout σ, healthy σ, now σ) in
  (∀ V rest, ReqHeader r !! "X-Request-Id" = Some (V :: rest) → V ≠ "" → passes V)
  ∧ (ReqHeader r !! "X-Request-Id" = None → passes (gen σ))
  ∧ (ReqHeader r !! "X-Request-Id" = Some [] → passes (gen σ))
  ∧ (∀ rest, ReqHeader r !! "X-Request-Id" = Some ("" :: rest) → passes (gen σ)).
Proof.
  intros passes.
  assert (∀ id, (if decide (Header_Get (ReqHeader r) "X-Request-Id" = "")
                 then gen σ else Header_Get (ReqHeader r) "X-Request-Id") = id →
                passes id) as Hpass.
  { intros id Hid. unfold passes, tracing. rewrite Hid.
    eexists _, _. split; [reflexivity|]. cbn.
    split; [unfold Header_Set; by rewrite lookup_insert_eq|].
    split; [by rewrite decide_True|done]. }
  repeat split.
  - intros V rest Hh HV. apply Hpass. unfold Header_Get. rewrite Hh.
    by rewrite decide_False.
  - intros Hh. apply Hpass. unfold Header_Get. by rewrite Hh.
  - intros Hh. apply Hpass. unfold Header_Get. by rewrite Hh.
  - intros rest Hh. apply Hpass. unfold Header_Get. by rewrite Hh.
Qed.

(** C6 (as stated, refuted): a request that carries the header with the
    empty value gets a generated identifier back, not the value it sent. *)
Lemma empty_request_id_is_replaced :
  ReqHeader (Sample.request "GET" "/" {["X-Request-Id" := [""]]}) !! "X-Request-Id"
  = Some [""]
  ∧ rw_sent (rw (serve Sample.env_standalone
                   (Sample.request "GET" "/" {["X-Request-Id" := [""]]})
                   (Sample.world 1)).2)
    = Some (200%Z, {["X-Request-Id" := ["1700000000000000000"]]}).
Proof. by vm_compute. Qed.

(** The page response carries the identifier, and so does the log line. *)
Lemma page_response_request_id env r σ V rest :
  RequestURI r ≠ "*" → cleanPath (URL_Path r) = URL_Path r →
  URL_Path r ≠ "/style.css" → URL_Path r ≠ "/background.jpg" →
  ReqHeader r !! "X-Request-Id" = Some (V :: rest) → V ≠ "" →
  ∃ hdr, rw_sent (rw (serve env r σ).2) = Some (StatusOK, hdr)
         ∧ hdr !! "X-Request-Id" = Some [V].
Proof.
  intros H0 H1 H2 H3 Hh HV. rewrite serve_page by done. cbn.
  eexists. split; [done|]. unfold Header_Get. rewrite Hh.
  rewrite decide_False by done. unfold Header_Set. by rewrite lookup_insert_eq.
Qed.
End Middleware.

(** ** Canonical paths *)

Section CleanPath.
Import Http GoStrings.
Implicit Types p e : bytes.
Implicit Types elems out : list bytes.

Lemma split_slash_nonempty p : split_slash p ≠ [].
Proof.
  destruct p as [|c p]; [done|]. cbn [split_slash].
  case_decide; [done|]. by destruct (split_slash p).
Qed.

Lemma split_slash_no_slash p : Forall (λ e, slash ∉ e) (split_slash p).
Proof.
  induction p as [|c p IH]; cbn [split_slash].
  - repeat constructor. by intros ?%elem_of_nil.
  - case_decide as Hc.
    + constructor; [by intros ?%elem_of_nil|done].
    + destruct (split_slash p) as [|e rest].
      * repeat constructor. by intros [?|?%elem_of_nil]%elem_of_cons.
      * inversion IH; subst. constructor; [|done].
        by intros [?|?]%elem_of_cons.
Qed.

(** An element without slash is split off whole. *)
Lemma split_slash_elem e : slash ∉ e → split_slash e = [e].
Proof.
  induction e as [|c e IH]; intros He; [done|]. cbn [split_slash].
  rewrite decide_False by set_solver. rewrite IH by set_solver. done.
Qed.

Lemma split_slash_app e p :
  slash ∉ e → split_slash (e ++ slash :: p) = e :: split_slash p.
Proof.
  induction e as [|c e IH]; intros He.
  - cbn. by rewrite decide_True.
  - cbn [app split_slash]. rewrite decide_False by set_solver.
    rewrite IH by set_solver. done.
Qed.

Lemma split_slash_snoc p : split_slash (p ++ [slash]) = split_slash p ++ [[]].
Proof.
  induction p as [|c p IH]; [done|]. cbn [app split_slash].
  case_decide; [by rewrite IH|]. rewrite IH.
  pose proof (split_slash_nonempty p). by destruct (split_slash p).
Qed.

(** Splitting undoes joining. *)
Lemma split_join elems :
  elems ≠ [] → Forall (λ e, slash ∉ e) elems →
  split_slash (join_slash elems) = elems.
Proof.
  induction elems as [|e elems IH]; [done|]. intros _ Hall.
  inversion Hall as [|? ? He Hrest]; subst.
  destruct elems as [|e2 elems].
  - by apply split_slash_elem.
  - cbn [join_slash]. rewrite split_slash_app by done. f_equal. by apply IH.
Qed.

Lemma clean_elem_plain out e :
  slash ∉ e → Forall plain_elem out → Forall plain_elem (clean_elem out e).
Proof.
  intros He Hout. unfold clean_elem. repeat case_decide; try done.
  - destruct out; [done|]. by inversion Hout.
  - constructor; [|done]. by repeat split.
Qed.

Lemma foldl_clean_plain elems out :
  Forall (λ e, slash ∉ e) elems → Forall plain_elem out →
  Forall plain_elem (foldl clean_elem out elems).
Proof.
  revert out. induction elems as [|e elems IH]; intros out He Hout; [done|].
  inversion He; subst. cbn. apply IH; [done|]. by apply clean_elem_plain.
Qed.

(** Plain elements are all kept, in order. *)
Lemma foldl_clean_keeps elems out :
  Forall plain_elem elems → foldl clean_elem out elems = reverse elems ++ out.
Proof.
  revert out. induction elems as [|e elems IH]; intros out He; [done|].
  inversion He as [|? ? (H1 & H2 & H3 & H4) Hrest]; subst. cbn [foldl].
  rewrite IH by done. unfold clean_elem. rewrite !decide_False by done.
  by rewrite reverse_cons, <- app_assoc.
Qed.

Lemma plain_no_slash elems : Forall plain_elem elems → Forall (λ e, slash ∉ e) elems.
Proof. intros H. eapply Forall_impl; [done|]. by intros e (_ & _ & _ & ?). Qed.

Lemma clean_elem_empty out : clean_elem out [] = out.
Proof. unfold clean_elem. by rewrite decide_True. Qed.

Lemma foldl_clean_cons out e elems :
  foldl clean_elem out (e :: elems) = foldl clean_elem (clean_elem out e) elems.
Proof. done. Qed.

Lemma foldl_clean_snoc_empty out elems :
  foldl clean_elem out (elems ++ [[]]) = foldl clean_elem out elems.
Proof. rewrite foldl_app. cbn [foldl]. apply clean_elem_empty. Qed.

(** A rooted path of plain elements is clean already. *)
Lemma path_Clean_plain elems :
  Forall plain_elem elems →
  path_Clean (slash :: join_slash elems) = slash :: join_slash elems.
Proof.
  intros He. unfold path_Clean. f_equal. f_equal.
  destruct elems as [|e elems]; [done|].
  cbn [split_slash]. rewrite decide_True by done.
  rewrite split_join by (done || by apply plain_no_slash).
  rewrite foldl_clean_cons, clean_elem_empty.
  rewrite foldl_clean_keeps by done. by rewrite app_nil_r, reverse_involutive.
Qed.

Lemma path_Clean_plain_slash elems :
  Forall plain_elem elems →
  path_Clean (slash :: join_slash elems ++ [slash]) = slash :: join_slash elems.
Proof.
  intros He. unfold path_Clean. f_equal.
  cbn [split_slash]. rewrite decide_True by done.
  rewrite split_slash_snoc.
  destruct elems as [|e elems]; [reflexivity|].
  rewrite split_join by (done || by apply plain_no_slash).
  rewrite foldl_clean_cons, clean_elem_empty, foldl_clean_snoc_empty.
  rewrite foldl_clean_keeps by done. by rewrite app_nil_r, reverse_involutive.
Qed.

Lemma join_slash_last elems :
  elems ≠ [] → Forall plain_elem elems →
  join_slash elems ≠ [] ∧ last (join_slash elems) ≠ Some slash.
Proof.
  induction elems as [|e elems IH]; [done|]. intros _ He.
  inversion He as [|? ? (H1 & H2 & H3 & H4) Hrest]; subst.
  destruct elems as [|e2 elems].
  - cbn [join_slash]. split; [done|]. intros Hl. apply H4.
    apply last_Some in Hl as [l' ->].
    rewrite elem_of_app, list_elem_of_singleton. by right.
  - destruct IH as [Hne Hl]; [done..|].
    change (join_slash (e :: e2 :: elems))
      with (e ++ slash :: join_slash (e2 :: elems)).
    remember (join_slash (e2 :: elems)) as J eqn:HJ. clear HJ.
    split; [by destruct e|].
    rewrite last_app, last_cons.
    destruct (last J) eqn:Hj; [done|]. by apply last_None in Hj.
Qed.

(** What [cleanPath] returns: a slash, plain elements joined by slashes,
    and possibly one slash at the end. *)
Lemma cleanPath_bytes_shape p :
  ∃ elems, Forall plain_elem elems
           ∧ (cleanPath_bytes p = slash :: join_slash elems
              ∨ (elems ≠ [] ∧ cleanPath_bytes p = slash :: join_slash elems ++ [slash])).
Proof.
  unfold cleanPath_bytes. destruct p as [|c p]; [exists []; split; [done|by left]|].
  set (q := if decide (c = slash) then c :: p else slash :: c :: p).
  exists (reverse (foldl clean_elem [] (split_slash q))).
  assert (Forall plain_elem (reverse (foldl clean_elem [] (split_slash q)))) as Hplain.
  { apply Forall_reverse, foldl_clean_plain; [apply split_slash_no_slash|done]. }
  split; [done|].
  change (path_Clean q)
    with (slash :: join_slash (reverse (foldl clean_elem [] (split_slash q)))).
  set (elems := reverse (foldl clean_elem [] (split_slash q))) in *.
  case_decide as Hcond; [|by left]. right. destruct Hcond as [Hlast Hnp].
  split; [by intros Hnil; rewrite Hnil in Hnp|].
  case_decide as Hlen; [|done].
  destruct (HasPrefix q (slash :: join_slash elems)) eqn:Hpre; [|done].
  apply HasPrefix_true in Hpre as [rest Hq]. rewrite Hq in Hlen, Hlast |- *.
  rewrite length_app in Hlen. destruct rest as [|x [|y rest]]; simpl in Hlen; try lia.
  rewrite (last_snoc x (slash :: join_slash elems)) in Hlast. by injection Hlast as ->.
Qed.

Lemma cleanPath_bytes_fixed elems :
  Forall plain_elem elems →
  cleanPath_bytes (slash :: join_slash elems) = slash :: join_slash elems.
Proof.
  intros He. unfold cleanPath_bytes. cbv beta iota zeta.
  rewrite (decide_True (P := slash = slash)) by done.
  rewrite path_Clean_plain by done.
  rewrite decide_False; [done|]. intros [Hlast Hne].
  destruct elems as [|e elems]; [done|].
  destruct (join_slash_last (e :: elems)) as [HJ Hl]; [done..|].
  rewrite last_cons in Hlast.
  destruct (last (join_slash (e :: elems))) eqn:Hj; [done|].
  by apply last_None in Hj.
Qed.

Lemma cleanPath_bytes_fixed_slash elems :
  elems ≠ [] → Forall plain_elem elems →
  cleanPath_bytes (slash :: join_slash elems ++ [slash])
  = slash :: join_slash elems ++ [slash].
Proof.
  intros Hne He. unfold cleanPath_bytes. cbv beta iota zeta.
  rewrite (decide_True (P := slash = slash)) by done.
  rewrite path_Clean_plain_slash by done.
  destruct (join_slash_last elems) as [HJ Hl]; [done..|].
  rewrite decide_True.
  2:{ split; [apply (last_snoc slash (slash :: join_slash elems))|].
      intros [= HJ']. done. }
  rewrite decide_True by (cbn; rewrite length_app; cbn; lia).
  assert (HasPrefix (slash :: join_slash elems ++ [slash]) (slash :: join_slash elems)
          = true) as ->; [|done].
  apply HasPrefix_true. by exists [slash].
Qed.
End CleanPath.

(** ** The text of a redirect target *)

Section Escaping.
Import Http GoStrings.
Implicit Types s e : bytes.

Lemma escape_path_app s1 s2 : escape_path (s1 ++ s2) = escape_path s1 ++ escape_path s2.
Proof.
  induction s1 as [|c s1 IH]; [done|]. cbn [app escape_path].
  destruct (shouldEscape_path c); by rewrite IH.
Qed.

Lemma hex_not_special n :
  upperhex n ≠ slash ∧ upperhex n ≠ "?"%char ∧ upperhex n ≠ "."%char.
Proof. unfold upperhex. do 17 (destruct n as [|n]; [by vm_compute|]). by vm_compute. Qed.

(** What escaping puts out: the byte itself when it need not be escaped,
    or a percent sign and two hexadecimal digits. *)
Lemma escape_path_elem_of x s :
  x ∈ escape_path s →
  (x ∈ s ∧ shouldEscape_path x = false) ∨ x = "%"%char ∨ ∃ n, x = upperhex n.
Proof.
  induction s as [|c s IH]; cbn [escape_path]; [by intros ?%elem_of_nil|].
  destruct (shouldEscape_path c) eqn:Hc.
  - rewrite !elem_of_cons. intros [->|[->|[->|Hx]]]; eauto.
    destruct (IH Hx) as [[? ?]|[?|?]]; eauto; try (left; split; [by right|done]).
  - rewrite elem_of_cons. intros [->|Hx].
    + left. split; [by left|done].
    + destruct (IH Hx) as [[? ?]|[?|?]]; eauto; try (left; split; [by right|done]).
Qed.

Lemma escape_path_no_slash s : slash ∉ s → slash ∉ escape_path s.
Proof.
  intros Hs [[? _]|[?|[n Hn]]]%escape_path_elem_of; [done|done|].
  by destruct (hex_not_special n) as [? _].
Qed.


Lemma escape_path_nil s : escape_path s = [] → s = [].
Proof. destruct s as [|c s]; [done|]. cbn. by destruct (shouldEscape_path c). Qed.

Lemma escape_path_plain e : plain_elem e → plain_elem (escape_path e).
Proof.
  intros (Hne & Hdot & Hdd & Hsl). repeat split.
  - by intros ?%escape_path_nil.
  - intros He. apply Hdot. destruct e as [|c e]; [done|]. cbn in He.
    destruct (shouldEscape_path c); [done|]. injection He as -> He.
    by apply escape_path_nil in He as ->.
  - intros He. apply Hdd. destruct e as [|c e]; [done|]. cbn in He.
    destruct (shouldEscape_path c); [done|]. injection He as -> He.
    destruct e as [|c2 e]; [done|]. cbn in He.
    destruct (shouldEscape_path c2); [done|]. injection He as -> He.
    by apply escape_path_nil in He as ->.
  - by apply escape_path_no_slash.
Qed.

Lemma escape_path_join elems :
  escape_path (join_slash elems) = join_slash (escape_path <$> elems).
Proof.
  induction elems as [|e elems IH]; [done|].
  destruct elems as [|e2 elems]; [done|].
  change (join_slash (e :: e2 :: elems)) with (e ++ slash :: join_slash (e2 :: elems)).
  rewrite escape_path_app. cbn [escape_path].
  change (shouldEscape_path slash) with false. cbv iota. by rewrite IH.
Qed.



(** The escaped form of a canonical path: canonical again. *)
Lemma escape_canonical p :
  ∃ elems, Forall plain_elem elems
           ∧ (escape_path (cleanPath_bytes p) = slash :: join_slash elems
              ∨ (elems ≠ []
                 ∧ escape_path (cleanPath_bytes p) = slash :: join_slash elems ++ [slash])).
Proof.
  destruct (cleanPath_bytes_shape p) as (elems & He & Hshape).
  exists (escape_path <$> elems). split.
  { apply Forall_fmap. eapply Forall_impl; [done|]. apply escape_path_plain. }
  destruct Hshape as [-> | [Hne ->]].
  - left. change (slash :: join_slash elems) with ([slash] ++ join_slash elems).
    by rewrite escape_path_app, escape_path_join.
  - right. split; [by destruct elems|].
    change (slash :: join_slash elems ++ [slash])
      with ([slash] ++ join_slash elems ++ [slash]).
    by rewrite !escape_path_app, escape_path_join.
Qed.
End Escaping.

Section RedirectFacts.
Import Http GoStrings.

Lemma b_of_bytes l : b (String.string_of_list_ascii l) = l.
Proof. unfold b. apply String.list_ascii_of_string_of_list_ascii. Qed.



(** No [./] in front of a rooted path. *)
Lemma rooted_guard rest sub :
  match Index (slash :: rest) sub with
  | Some i => if bool_decide (slash ∈ take i (slash :: rest)) then [] else b "./"
  | None => []
  end = [] ∨ HasPrefix (slash :: rest) sub = true.
Proof.
  cbn [Index]. destruct (HasPrefix (slash :: rest) sub); [by right|]. left.
  destruct (Index rest sub) as [i|]; [|done].
  cbn [fmap option_fmap option_map]. rewrite bool_decide_eq_true_2; [done|]. cbn. by left.
Qed.

(** The target of a redirect to a canonical path: the escaped path, and
    the query of the request behind a question mark. *)
Lemma URL_String_cleanPath p rawQuery forceQuery :
  URL_String (cleanPath p) rawQuery forceQuery
  = escape_path (cleanPath_bytes (b p))
    ++ (if forceQuery || negb (bool_decide (rawQuery = ""))
        then b "?" ++ b rawQuery else []).
Proof.
  unfold URL_String.
  destruct (cleanPath_rooted p) as [rest Hr].
  rewrite decide_False by (by rewrite Hr). clear rest Hr.
  unfold cleanPath. rewrite !b_of_bytes.
  destruct (escape_canonical (b p)) as (elems & _ & He).
  assert (∃ rest', escape_path (cleanPath_bytes (b p)) = slash :: rest') as [rest' ->].
  { destruct He as [->|[_ ->]]; by eexists. }
  destruct (rooted_guard rest' (b ":")) as [-> | Hp]; [done|].
  by vm_compute in Hp.
Qed.

End RedirectFacts.

(** ** Routing *)

Section Routing.
Import Http.
Variable env : Env.




End Routing.

Section RoutingExamples.
Import Http GoStrings.


End RoutingExamples.

(** ** Signals and the shutdown sequence *)

Section Signals.
Import Lifecycle.
Variable sc : Scenario.

(** The sequence that an interrupt starts: the flag goes to 0, keep-alives
    are switched off, and Shutdown is entered with a 30 second context. *)
Lemma sigint_starts_shutdown p :
  p_exit p = None → p_watcher p = W_recv_quit → p_quit p = [] →
  let p' := run sc (Deliver SIGINT :: replicate 6 StepWatcher) p in
  p_healthy p' = 0%Z ∧ p_keepAlives p' = false
  ∧ p_ctx_timeout p' = Some (30 * 1000000000)%Z
  ∧ p_inShutdown p' = true ∧ p_watcher p' = W_in_Shutdown.
Proof.
  destruct p. cbn [p_exit p_watcher p_quit]. intros -> -> ->. by cbn.
Qed.

Lemma idle_exec p e : e ≠ Deliver SIGINT → idle p → idle (exec sc p e).
Proof.
  intros He (Hw & Hq & Hs & Hk & Hc & Hst). unfold exec, step.
  destruct (p_exit p); [done|].
  destruct e as [[]| |]; [done|..].
  - (* SIGTERM: no room in [cancel], no subscription on [quit] *)
    unfold idle, deliver, notify. cbn. rewrite Hq. by cbn.
  - unfold step_main, idle. destruct (p_main p); cbn; rewrite ?Hs; cbn;
      try destruct (listen_error sc); try destruct (p_done p); cbn;
      repeat split; try done.
    all: rewrite elem_of_app, list_elem_of_singleton; intros [?|?]; done.
  - unfold step_watcher. rewrite Hw, Hq. by cbn.
Qed.

(** C2 (as the code has it): only SIGINT is sent to [quit].  A run without
    SIGINT, whatever else is delivered (SIGTERM included), never leaves
    the serving state: the goroutine keeps waiting, the flag is never set
    to 0, keep-alives stay on, and Shutdown is not called. *)
Theorem sigterm_never_starts_shutdown evs :
  Deliver SIGINT ∉ evs →
  let p := run sc evs init in
  p_watcher p = W_recv_quit ∧ p_inShutdown p = false ∧ p_keepAlives p = true
  ∧ p_ctx_timeout p = None ∧ 0%Z ∉ p_stores p.
Proof.
  intros Hno p.
  assert (idle p) as (? & ? & ? & ? & ? & ?); [|done].
  unfold p, run. assert (idle init) as Hinit.
  { unfold idle, init. cbn. repeat split; try done. set_solver. }
  revert Hinit Hno. generalize init. induction evs as [|e evs IH]; intros q Hq Hno; [done|].
  cbn. apply IH.
  - apply idle_exec; [|done]. set_solver.
  - set_solver.
Qed.
End Signals.

Section SignalExamples.
Import Lifecycle.

Lemma sigterm_never_starts_shutdown_witness :
  p_healthy (run Sample.sc_clean (Sample.startup ++ Sample.shutdown_on SIGTERM) init) = 1%Z
  ∧ p_watcher (run Sample.sc_clean (Sample.startup ++ Sample.shutdown_on SIGTERM) init)
    = W_recv_quit
  ∧ p_inShutdown (run Sample.sc_clean (Sample.startup ++ Sample.shutdown_on SIGTERM) init)
    = false.
Proof.
  split; [by vm_compute|].
  assert (Deliver SIGINT ∉ Sample.startup ++ Sample.shutdown_on SIGTERM) as Hno
    by (apply (bool_decide_unpack _); by vm_compute).
  pose proof (sigterm_never_starts_shutdown Sample.sc_clean _ Hno) as H.
  split; [exact (proj1 H) | exact (proj1 (proj2 H))].
Defined.

(** The same run with SIGINT in place of SIGTERM shuts the server down. *)
Lemma sigint_run_shuts_down :
  p_healthy (run Sample.sc_clean (Sample.startup ++ Sample.shutdown_on SIGINT) init) = 0%Z
  ∧ p_inShutdown (run Sample.sc_clean (Sample.startup ++ Sample.shutdown_on SIGINT) init)
    = true.
Proof. by vm_compute. Qed.
End SignalExamples.

(** ** Invariants of the two goroutines *)

Section Invariants.
Import Lifecycle.
Variable sc : Scenario.

Lemma sequence_inv_exec p e : sequence_inv p → sequence_inv (exec sc p e).
Proof.
  intros Hinv. unfold exec, step. destruct (p_exit p); [done|].
  destruct e as [sig| |].
  - exact Hinv.
  - destruct Hinv as (Hctx & Hka & Hsd & Hdone & Hl).
    unfold step_main, sequence_inv.
    destruct (p_main p) eqn:Hm; cbn [default];
      try destruct (p_inShutdown p) eqn:Hs; try destruct (listen_error sc);
      try destruct (p_done p) eqn:Hd;
      cbn; rewrite ?Hm, ?Hs, ?Hd; cbn; repeat split; try done;
      try (intros;
           match goal with
           | H : p_listening p = true |- _ => destruct (Hl H); congruence
           end).
  - destruct Hinv as (Hctx & Hka & Hsd & Hdone & Hl).
    unfold step_watcher, sequence_inv.
    destruct (p_watcher p) eqn:Hw; cbn [default];
      try destruct (p_quit p); try destruct (Shutdown_err (shutdown_result sc));
      cbn; rewrite ?Hw, ?Hctx, ?Hka, ?Hsd, ?Hdone; repeat split; try done;
      try (intros;
           match goal with
           | H : p_listening p = true |- _ => destruct (Hl H); congruence
           end).
Qed.

Lemma sequence_inv_run evs p : sequence_inv p → sequence_inv (run sc evs p).
Proof.
  revert p. induction evs as [|e evs IH]; intros p Hp; [done|].
  cbn. apply IH. by apply sequence_inv_exec.
Qed.

Lemma sequence_inv_init : sequence_inv init.
Proof. by repeat split. Qed.

Lemma idle_run evs p : Deliver SIGINT ∉ evs → idle p → idle (run sc evs p).
Proof.
  revert p. induction evs as [|e evs IH]; intros p Hno Hp; [done|].
  apply not_elem_of_cons in Hno as [Hne Hno].
  cbn. apply IH; [done|]. by apply idle_exec.
Qed.

Lemma idle_init : idle init.
Proof. unfold idle, init. cbn. repeat split; try done. by intros ?%elem_of_nil. Qed.

Lemma run_app evs1 evs2 p : run sc (evs1 ++ evs2) p = run sc evs2 (run sc evs1 p).
Proof. apply foldl_app. Qed.
End Invariants.

(** ** The liveness flag *)

Section Flag.
Import Lifecycle.
Variable sc : Scenario.

Lemma flag_inv_exec p e : flag_inv p → flag_inv (exec sc p e).
Proof.
  intros [Hh Ha]. unfold exec, step. destruct (p_exit p); [done|].
  destruct e as [sig| |].
  - done.
  - unfold step_main. unfold flag_inv, stores_agree in *.
    destruct (p_main p) eqn:Hm; cbn in *; rewrite ?Hm; cbn;
      try destruct (p_inShutdown p); try destruct (listen_error sc);
      try destruct (p_done p); cbn; rewrite ?Hm; cbn; try done.
    all: destruct (watcher_has_stored (p_watcher p)); rewrite Ha, ?last_snoc; cbn; auto.
  - unfold step_watcher. unfold flag_inv, stores_agree in *.
    destruct (p_watcher p) eqn:Hw; cbn in *; rewrite ?Hw; cbn;
      try destruct (p_quit p); try destruct (Shutdown_err (shutdown_result sc));
      cbn; rewrite ?Hw; cbn; try done.
    all: destruct (main_has_stored (p_main p)); rewrite Ha, ?last_snoc; cbn; auto.
Qed.

Lemma flag_inv_run evs p : flag_inv p → flag_inv (run sc evs p).
Proof.
  revert p. induction evs as [|e evs IH]; intros p Hp; [done|].
  cbn. apply IH. by apply flag_inv_exec.
Qed.

Lemma flag_inv_init : flag_inv init.
Proof. done. Qed.



(** The stores that [flag_inv] allows. *)
Lemma flag_inv_stores p :
  flag_inv p →
  p_stores p = [] ∨ p_stores p = [1%Z] ∨ p_stores p = [0%Z]
  ∨ p_stores p = [1%Z; 0%Z] ∨ p_stores p = [0%Z; 1%Z].
Proof.
  intros [_ Ha]. unfold stores_agree in Ha.
  destruct (main_has_stored _), (watcher_has_stored _); tauto.
Qed.

End Flag.

Section FlagExamples.
Import Lifecycle.


(** An interrupt handled before [main] reaches line 83 leaves the two
    stores in the other order. *)
Lemma early_interrupt_order :
  p_stores (run Sample.sc_clean
              (Deliver SIGINT :: replicate 3 StepWatcher ++ [StepMain; StepMain]) init)
  = [0%Z; 1%Z].
Proof. by vm_compute. Qed.

(** An interrupt handled between line 83 and a failing bind: the process
    ends with status 1 and the flag at 0. *)
Lemma interrupt_before_failing_bind :
  p_exit (run Sample.sc_port_taken
            ([StepMain; StepMain; Deliver SIGINT] ++ replicate 3 StepWatcher ++ [StepMain])
            init) = Some 1%Z
  ∧ p_healthy (run Sample.sc_port_taken
            ([StepMain; StepMain; Deliver SIGINT] ++ replicate 3 StepWatcher ++ [StepMain])
            init) = 0%Z.
Proof. by vm_compute. Qed.
End FlagExamples.

(** ** How the process ends *)

Section InterruptedRun.
Import Lifecycle.

(** A server that has come up and is interrupted, followed until
    [Shutdown] has returned, and from there to the end of [main]. *)
Lemma interrupted_run (sc : Scenario) :
  let fatal err := "Could not gracefully shutdown the server: " +:+ err +:+ Http.newline in
  let interrupted := [StepMain; StepMain; StepMain; Deliver SIGINT]
                     ++ replicate 7 StepWatcher in
  listen_error sc = None →
  match Shutdown_err (shutdown_result sc) with
  | Some err =>
      p_exit (run sc interrupted init) = Some 1%Z
      ∧ last (p_log (run sc interrupted init)) = Some (fatal err)
  | None =>
      p_exit (run sc interrupted init) = None
      ∧ p_exit (run sc (interrupted ++ [StepWatcher; StepMain; StepMain; StepMain])
                  init) = Some 0%Z
  end.
Proof.
  intros fatal interrupted. destruct sc as [addr lerr sres].
  cbn [listen_error shutdown_result]. intros ->.
  destruct sres as [| |err]; cbn [Shutdown_err]; by vm_compute.
Qed.
End InterruptedRun.

Section Exit.
Import Lifecycle.
Variable sc : Scenario.

Local Ltac close_inv :=
  unfold exit_inv, exit_explained in *; cbn;
  repeat match goal with
         | H : _ ∧ _ |- _ => destruct H
         end;
  repeat split; intros;
  repeat match goal with
         | H : ?a = ?a → _ |- _ => specialize (H eq_refl)
         | H : _ ∧ _ |- _ => destruct H
         | H : _ ∨ _ |- _ => destruct H
         end;
  try congruence; eauto.

Lemma exit_inv_exec p e : exit_inv sc p → exit_inv sc (exec sc p e).
Proof.
  intros Hinv. unfold exec, step.
  destruct (p_exit p) as [c|] eqn:He; [done|].
  destruct e as [sig| |].
  - exact Hinv.
  - unfold step_main. destruct (p_main p) eqn:Hm; cbn [default].
    + close_inv.
    + close_inv.
    + destruct (p_inShutdown p); [close_inv|].
      destruct (listen_error sc) eqn:Hl; close_inv.
    + destruct (p_inShutdown p); close_inv.
    + destruct (p_done p) eqn:Hd; close_inv.
    + close_inv.
    + close_inv.
  - unfold step_watcher. destruct (p_watcher p) eqn:Hw; cbn [default].
    + destruct (p_quit p); close_inv.
    + close_inv.
    + close_inv.
    + close_inv.
    + close_inv.
    + close_inv.
    + destruct (Shutdown_err (shutdown_result sc)) eqn:Hs; close_inv.
    + close_inv.
    + close_inv.
Qed.

Lemma exit_inv_run evs p : exit_inv sc p → exit_inv sc (run sc evs p).
Proof.
  revert p. induction evs as [|e evs IH]; intros p Hp; [done|].
  cbn. apply IH. by apply exit_inv_exec.
Qed.

Lemma exit_inv_init : exit_inv sc init.
Proof.
  unfold exit_inv, exit_explained. cbn.
  repeat split; auto; try done; intros [?|?]; done.
Qed.

(** Any error of [Shutdown] ends the process on the spot with status 1;
    without an error the goroutine goes on to close [done]. *)
Lemma shutdown_error_is_fatal p :
  p_exit p = None → p_watcher p = W_in_Shutdown →
  p_exit (exec sc p StepWatcher)
  = match Shutdown_err (shutdown_result sc) with
    | Some _ => Some 1%Z
    | None => None
    end.
Proof.
  intros He Hw. unfold exec, step, step_watcher. rewrite He, Hw.
  by destruct (Shutdown_err _).
Qed.

(** Nothing runs in a process that has exited. *)
Lemma exited_run evs p : p_exit p ≠ None → run sc evs p = p.
Proof.
  intros He. induction evs as [|e evs IH]; [done|].
  cbn. unfold exec at 2, step. by destruct (p_exit p).
Qed.

(** C4 (amended): any error that [Shutdown] returns is fatal.  When the
    goroutine is inside [Shutdown] and the call returns an error, the
    goroutine logs the error and the process ends on the spot with
    status 1, [done] not closed; the error of the context whose 30
    seconds have elapsed is such an error.  Without an error the
    goroutine goes on to close [done].  A server that has come up and is
    interrupted ends with status 1 when [Shutdown] returns an error, and
    with status 0, after [main] has returned, when it returns none.
    Conversely the process ends with status 0 only when [Shutdown]
    returned no error, [done] was closed and [main] returned, and with
    status 1 only when the listener could not be bound or [Shutdown]
    returned an error; a run in which the deadline elapses never ends
    with status 0.  An exit is final. *)
Theorem exit_status_by_shutdown_error evs :
  let p := run sc evs init in
  let fatal err := "Could not gracefully shutdown the server: " +:+ err +:+ Http.newline in
  let interrupted := [StepMain; StepMain; StepMain; Deliver SIGINT]
                     ++ replicate 7 StepWatcher in
  (p_exit p = None ∨ p_exit p = Some 0%Z ∨ p_exit p = Some 1%Z)
  ∧ (p_exit p = Some 0%Z →
       Shutdown_err (shutdown_result sc) = None ∧ p_done p = true
       ∧ p_main p = M_returned)
  ∧ (p_exit p = Some 1%Z →
       (is_Some (listen_error sc) ∧ p_main p = M_ListenAndServe)
       ∨ (is_Some (Shutdown_err (shutdown_result sc)) ∧ p_watcher p = W_in_Shutdown))
  ∧ (shutdown_result sc = DeadlineExceeded → p_exit p ≠ Some 0%Z)
  ∧ (p_exit p = None → p_watcher p = W_in_Shutdown →
       match Shutdown_err (shutdown_result sc) with
       | Some err =>
           p_exit (exec sc p StepWatcher) = Some 1%Z
           ∧ last (p_log (exec sc p StepWatcher)) = Some (fatal err)
           ∧ p_done (exec sc p StepWatcher) = false
       | None =>
           p_exit (exec sc p StepWatcher) = None
           ∧ p_watcher (exec sc p StepWatcher) = W_close_done
       end)
  ∧ (Shutdown_err DeadlineExceeded = Some "context deadline exceeded")
  ∧ (listen_error sc = None →
       match Shutdown_err (shutdown_result sc) with
       | Some err =>
           p_exit (run sc interrupted init) = Some 1%Z
           ∧ last (p_log (run sc interrupted init)) = Some (fatal err)
       | None =>
           p_exit (run sc interrupted init) = None
           ∧ p_exit (run sc (interrupted ++ [StepWatcher; StepMain; StepMain; StepMain])
                       init) = Some 0%Z
       end)
  ∧ (p_exit p ≠ None → ∀ evs', run sc evs' p = p).
Proof.
  intros p fatal interrupted.
  destruct (exit_inv_run evs init exit_inv_init) as [(Hc & H0 & H1) _].
  fold p in Hc, H0, H1.
  split; [done|]. split; [done|]. split; [done|].
  split; [|split; [|split; [|split]]].
  - intros Hd He. apply H0 in He as [He _]. by rewrite Hd in He.
  - intros He Hw.
    destruct (sequence_inv_run sc evs init sequence_inv_init) as (_&_&_&Hdone&_).
    fold p in Hdone. rewrite Hw in Hdone.
    unfold exec, step, step_watcher. rewrite He, Hw.
    destruct (Shutdown_err (shutdown_result sc)) as [err|]; cbn; [|done].
    by rewrite last_snoc.
  - done.
  - apply interrupted_run.
  - intros He evs'. by apply exited_run.
Qed.
End Exit.

Section ExitExamples.
Import Lifecycle.

(** C4 (as stated, refuted): the server is up, an interrupt arrives, a
    request hangs beyond the 30 seconds: the process ends with status 1
    and the fatal message, [done] is never closed. *)
Lemma deadline_elapsed_is_fatal :
  p_ctx_timeout (run Sample.sc_hanging (Sample.startup ++ Sample.shutdown_on SIGINT) init)
  = Some 30000000000%Z
  ∧ p_exit (run Sample.sc_hanging (Sample.startup ++ Sample.shutdown_on SIGINT) init)
    = Some 1%Z
  ∧ p_done (run Sample.sc_hanging (Sample.startup ++ Sample.shutdown_on SIGINT) init)
    = false
  ∧ last (p_log (run Sample.sc_hanging (Sample.startup ++ Sample.shutdown_on SIGINT) init))
    = Some ("Could not gracefully shutdown the server: context deadline exceeded"
            +:+ Http.newline).
Proof. by vm_compute. Qed.

(** A run in which every connection drains ends with status 0. *)
Lemma clean_drain_exits_zero :
  p_exit (run Sample.sc_clean
            (Sample.startup ++ Sample.shutdown_on SIGINT
             ++ [StepWatcher; StepMain; StepMain; StepMain]) init)
  = Some 0%Z.
Proof. by vm_compute. Qed.

(** The theorem at the elapsed deadline: the goroutine is inside
    [Shutdown], its next step ends the process with status 1. *)
Lemma exit_status_by_shutdown_error_witness :
  p_exit (exec Sample.sc_hanging
            (run Sample.sc_hanging
               (Sample.startup ++ Deliver SIGINT :: replicate 6 StepWatcher) init)
            StepWatcher) = Some 1%Z
  ∧ p_done (exec Sample.sc_hanging
              (run Sample.sc_hanging
                 (Sample.startup ++ Deliver SIGINT :: replicate 6 StepWatcher) init)
              StepWatcher) = false.
Proof.
  pose proof (proj1 (proj2 (proj2 (proj2 (proj2
    (exit_status_by_shutdown_error Sample.sc_hanging
       (Sample.startup ++ Deliver SIGINT :: replicate 6 StepWatcher))))))
    eq_refl eq_refl) as H.
  exact (conj (proj1 H) (proj2 (proj2 H))).
Defined.
End ExitExamples.

(* ===================================================================== *)
(** * Further properties *)
(* ===================================================================== *)

(** ** The handlers *)

Section HealthHandler.
Import Http.
Import Lifecycle.

(** X1: [healthz] read against the life of the process.  Run with the
    flag as a reachable state of the process has it, on a response
    nothing has been written to, the handler sends 204 exactly when the
    last store to the flag was the store of 1, and 503 otherwise: 503
    until [main] has executed line 83; 204 whenever the listener accepts
    and the goroutine has not stored 0, and at any time after line 83 of
    a run without SIGINT; 503 once the store of 0 has followed the store
    of 1.  It writes no body, sets no header and logs nothing.  On a
    response whose header has been written the call of [WriteHeader] is
    not carried out: the response stays as it is and net/http reports
    the call, naming the line of it, through the logger of the server. *)
Theorem healthz_follows_lifecycle sc evs r σ :
  let p := run sc evs init in
  healthy σ = p_healthy p →
  let code := rw_status (rw (healthz r σ).2) in
  (healthz r σ).1 = Returned
  ∧ (rw_sent (rw σ) = None →
       (code = Some StatusNoContent ∨ code = Some StatusServiceUnavailable)
       ∧ (code = Some StatusNoContent ↔ last (p_stores p) = Some 1%Z)
       ∧ (main_has_stored (p_main p) = false → code = Some StatusServiceUnavailable)
       ∧ (p_listening p = true → watcher_has_stored (p_watcher p) = false →
            code = Some StatusNoContent)
       ∧ (Deliver SIGINT ∉ evs → main_has_stored (p_main p) = true →
            code = Some StatusNoContent)
       ∧ (p_stores p = [1%Z; 0%Z] → code = Some StatusServiceUnavailable)
       ∧ rw_body (rw (healthz r σ).2) = rw_body (rw σ)
       ∧ rw_header (rw (healthz r σ).2) = rw_header (rw σ)
       ∧ stdout (healthz r σ).2 = stdout σ)
  ∧ (is_Some (rw_sent (rw σ)) →
       rw (healthz r σ).2 = rw σ
       ∧ stdout (healthz r σ).2
         = stdout σ
           ++ [{| line_prefix := "http: ";
                  line_text := "http: superfluous response.WriteHeader call from "
                               +:+ "main.healthz.func1 (main.go:"
                               +:+ (if decide (healthy σ = 1%Z) then "108" else "111")
                               +:+ ")" +:+ newline |}]).
Proof.
  intros p Hflag code. split; [unfold healthz; by case_decide|]. split.
  - intros Hs.
    destruct (flag_inv_run sc evs init flag_inv_init) as [Hh Ha]. fold p in Hh, Ha.
    pose proof (flag_inv_stores p (conj Hh Ha)) as Hshape.
    assert (code = Some (if decide (last (p_stores p) = Some 1%Z)
                         then StatusNoContent else StatusServiceUnavailable)) as Hcode.
    { unfold code, healthz, rw_status. rewrite Hflag, Hh.
      destruct Hshape as [H|[H|[H|[H|H]]]]; rewrite H; cbn [last from_option id];
        repeat case_decide; try done; cbn [snd]; by rewrite WriteHeader_fresh. }
    assert (main_has_stored (p_main p) = true →
            watcher_has_stored (p_watcher p) = false → p_stores p = [1%Z]) as Hone.
    { intros Hm Hw. unfold stores_agree in Ha. by rewrite Hm, Hw in Ha. }
    split; [rewrite Hcode; case_decide; auto|].
    split; [rewrite Hcode; case_decide; split; (done || by intros [=])|].
    split.
    { intros Hm. rewrite Hcode. unfold stores_agree in Ha. rewrite Hm in Ha.
      destruct (watcher_has_stored _); by rewrite Ha. }
    split.
    { intros Hl Hw.
      destruct (sequence_inv_run sc evs init sequence_inv_init) as (_&_&_&_&Hlisten).
      destruct (Hlisten Hl) as [Hm _]. fold p in Hm.
      rewrite Hcode, Hone; [done|by rewrite Hm|done]. }
    split.
    { intros Hno Hm.
      destruct (idle_run sc evs init Hno idle_init) as (Hw&_). fold p in Hw.
      rewrite Hcode, Hone; [done|done|by rewrite Hw]. }
    split; [intros H; by rewrite Hcode, H|].
    unfold healthz. destruct (decide (healthy σ = 1%Z)); cbn [snd];
      rewrite WriteHeader_fresh by done; by repeat split.
  - intros [sent Hs]. unfold healthz, WriteHeader.
    destruct (decide (healthy σ = 1%Z)); cbn [snd]; rewrite Hs; by repeat split.
Qed.

Lemma healthz_follows_lifecycle_witness :
  rw_status (rw (healthz (Sample.request "GET" "/healthz" ∅) (Sample.world 1)).2)
  = Some 204%Z.
Proof.
  exact (proj1 (proj2 (proj2 (proj2 (proj1 (proj2
           (healthz_follows_lifecycle Sample.sc_clean Sample.startup
              (Sample.request "GET" "/healthz" ∅) (Sample.world 1) eq_refl)) eq_refl))))
         eq_refl eq_refl).
Defined.

(** The handler on a response that has gone out already. *)
Lemma healthz_superfluous :
  stdout (healthz (Sample.request "GET" "/healthz" ∅)
            (on_rw (rw_commit 200) (Sample.world 1))).2
  = [{| line_prefix := "http: ";
        line_text := "http: superfluous response.WriteHeader call from "
                     +:+ "main.healthz.func1 (main.go:108)" +:+ newline |}].
Proof. by vm_compute. Qed.
End HealthHandler.

Section PageBody.
Import Http GoStrings.

(** X2: a template without the placeholder is written byte for byte,
    with status 200. *)
Theorem handler_plain_template_verbatim env r σ :
  rw_sent (rw σ) = None →
  ¬ occurs placeholder (ReadFile env "./static/index.html").1 →
  rw_status (rw (handler env r σ).2) = Some StatusOK
  ∧ rw_body (rw (handler env r σ).2)
    = rw_body (rw σ) ++ (ReadFile env "./static/index.html").1.
Proof.
  intros Hs Hno. rewrite handler_fresh by done. cbn. unfold render.
  by rewrite Replace_absent.
Qed.

Lemma handler_plain_template_verbatim_witness :
  rw_body (rw (handler Sample.env_unreadable (Sample.request "GET" "/" ∅)
                 (Sample.world 1)).2) = [].
Proof.
  refine (proj2 (handler_plain_template_verbatim Sample.env_unreadable
                   (Sample.request "GET" "/" ∅) (Sample.world 1) eq_refl _)).
  apply not_Contains_occurs. by vm_compute.
Defined.

(** X3: a template with one placeholder, with no opening brace before it
    and no placeholder behind it, yields exactly the text before, the
    greeting chosen by the probe, and the text behind. *)
Theorem handler_single_placeholder env r σ pre post :
  rw_sent (rw σ) = None →
  (ReadFile env "./static/index.html").1 = pre ++ placeholder ++ post →
  "{"%char ∉ pre → ¬ occurs placeholder post →
  rw_body (rw (handler env r σ).2)
  = rw_body (rw σ) ++ pre
    ++ (if testRedisConnection env (redisAddr env) then leadConnected else leadStandalone)
    ++ post.
Proof.
  intros Hs Ht Hpre Hpost. rewrite handler_fresh by done.
  cbn [snd rw rw_body]. f_equal. unfold render. rewrite Ht.
  destruct (placeholder_not_lead (testRedisConnection env (redisAddr env))) as [Hne Hon].
  set (lead := if testRedisConnection env (redisAddr env)
               then leadConnected else leadStandalone) in *.
  rewrite Replace_unfold by done.
  assert (placeholder = "{"%char :: b "{LEAD}}") as Hph by reflexivity.
  rewrite Hph in *. rewrite Index_behind by done.
  rewrite take_app_length.
  assert (drop (length pre + length ("{"%char :: b "{LEAD}}"))
            (pre ++ ("{"%char :: b "{LEAD}}") ++ post) = post) as ->.
  { rewrite app_assoc, <- length_app. apply drop_app_length. }
  by rewrite Replace_absent.
Qed.

Lemma handler_single_placeholder_witness :
  rw_body (rw (handler Sample.env_standalone (Sample.request "GET" "/" ∅)
                 (Sample.world 1)).2)
  = b "<h2>This is a simple single service application. Deployed by Cloud 66</h2>".
Proof.
  refine (handler_single_placeholder Sample.env_standalone
            (Sample.request "GET" "/" ∅) (Sample.world 1) (b "<h2>") (b "</h2>")
            eq_refl eq_refl _ _).
  - apply (bool_decide_unpack _). by vm_compute.
  - apply not_Contains_occurs. by vm_compute.
Defined.
End PageBody.

Section Correlation.
Import Http.

(** X4: in the order in which [main] stacks them, tracing outside and
    logging inside, the line that is logged carries the identifier that
    tracing put on the response header: the first value of the request's
    X-Request-Id header, or the generated one when that is empty. *)
Theorem traced_request_is_logged_with_its_id gen lg next r σ :
  let got := Header_Get (ReqHeader r) "X-Request-Id" in
  let id := if decide (got = "") then gen σ else got in
  ∃ r' σ',
    Header_Get (rw_header (rw σ')) "X-Request-Id" = id
    ∧ (tracing gen (logging lg next) r σ).1 = (next r' σ').1
    ∧ stdout (tracing gen (logging lg next) r σ).2
      = stdout (next r' σ').2
        ++ [{| line_prefix := prefix lg;
               line_text := Sprintln [id; Method r; URL_Path r; RemoteAddr r;
                                      UserAgent r] |}].
Proof.
  intros got id.
  exists (WithContext r (WithValue (Ctx r) requestIDKey (AString id))),
         (on_rw (rw_SetHeader "X-Request-Id" id) σ).
  unfold tracing. fold got. fold id. unfold logging, defer.
  destruct (next _ _) as [o σ1]. cbn [fst snd Ctx WithContext Value].
  rewrite decide_True by done. repeat split.
  cbn. unfold Header_Get, Header_Set. by rewrite lookup_insert_eq.
Qed.

Lemma pretty_N_go_nonempty x s : s ≠ "" → pretty_N_go x s ≠ "".
Proof.
  revert s. induction (N.lt_wf_0 x) as [x _ IH]; intros s Hs.
  assert (x = 0 ∨ 0 < x)%N as [->|Hx] by lia.
  - by rewrite pretty_N_go_0.
  - rewrite pretty_N_go_step by done. apply IH; [by apply N.div_lt|done].
Qed.

Lemma pretty_Z_nonempty (z : Z) : pretty z ≠ "".
Proof.
  assert (∀ x : positive, pretty x ≠ "") as Hpos.
  { intros x. unfold pretty, pretty_positive, pretty, pretty_N.
    rewrite decide_False by done. rewrite pretty_N_go_step by lia.
    by apply pretty_N_go_nonempty. }
  destruct z as [|x|x]; [done|apply Hpos|done].
Qed.

(** X5: with the generator of [main], the identifier that tracing hands
    on is never empty: the wrapped handler always runs with a non-empty
    X-Request-Id on the response header and in the context. *)
Theorem request_id_never_empty next r σ :
  ∃ r' σ' id,
    tracing nextRequestID next r σ = next r' σ'
    ∧ id ≠ ""
    ∧ rw_header (rw σ') !! "X-Request-Id" = Some [id]
    ∧ assert_string (Value (Ctx r') requestIDKey) = (id, true).
Proof.
  unfold tracing.
  set (id := if decide (Header_Get (ReqHeader r) "X-Request-Id" = "")
             then nextRequestID σ else Header_Get (ReqHeader r) "X-Request-Id").
  exists (WithContext r (WithValue (Ctx r) requestIDKey (AString id))),
         (on_rw (rw_SetHeader "X-Request-Id" id) σ), id.
  split; [reflexivity|]. split; [|split].
  - unfold id. case_decide; [apply pretty_Z_nonempty|done].
  - cbn. unfold Header_Set. by rewrite lookup_insert_eq.
  - cbn. by rewrite decide_True.
Qed.

(** X6: two generated identifiers are equal exactly when the two clock
    readings are: requests served at different nanoseconds get different
    identifiers, requests that read the same nanosecond get the same. *)
Theorem generated_ids_follow_the_clock σ1 σ2 :
  nextRequestID σ1 = nextRequestID σ2 ↔ now σ1 = now σ2.
Proof.
  unfold nextRequestID. split; [apply (inj pretty)|by intros ->].
Qed.
End Correlation.

Section Assets.
Import Http.
Variable env : Env.

Lemma router_asset r :
  URL_Path r = "/style.css" ∨ URL_Path r = "/background.jpg" →
  ServeMux_Handler (router env) r = FileServer env "./static".
Proof.
  intros Hp. unfold ServeMux_Handler.
  destruct Hp as [-> | ->]; case_decide; reflexivity.
Qed.

(** The exchange for an asset path, in terms of what the file server does. *)
Lemma serve_asset r σ :
  RequestURI r ≠ "*" →
  URL_Path r = "/style.css" ∨ URL_Path r = "/background.jpg" →
  let got := Header_Get (ReqHeader r) "X-Request-Id" in
  let id := if decide (got = "") then nextRequestID σ else got in
  let r' := WithContext r (WithValue (Ctx r) requestIDKey (AString id)) in
  let σ' := {| rw := rw_SetHeader "X-Request-Id" id newResponse;
               stdout := stdout σ; healthy := healthy σ; now := now σ |} in
  serve env r σ =
    (let '(o, σ1) := FileServer env "./static" r' σ' in
     let σ2 := Println logger [id; Method r; URL_Path r; RemoteAddr r; UserAgent r] σ1 in
     match o with
     | Returned => (o, match rw_sent (rw σ2) with
                       | None => on_rw (rw_commit StatusOK) σ2
                       | Some _ => σ2
                       end)
     | Panicked v stack =>
         (o, logf ("http: panic serving " +:+ RemoteAddr r +:+ ": " +:+ v
                   +:+ newline +:+ stack) σ2)
     | Aborted => (o, σ2)
     end).
Proof.
  intros Hstar Hp got id r' σ'. unfold serve.
  rewrite decide_False by (by intros [? _]).
  unfold server_Handler, tracing, logging, defer, ServeMux_ServeHTTP.
  cbn [RequestURI WithContext]. rewrite decide_False by done.
  rewrite router_asset by done.
  change (FileServer env "./static" _ _) with (FileServer env "./static" r' σ').
  destruct (FileServer env "./static" r' σ') as [o σ1]. by destruct o.
Qed.

(** X7: a request for one of the two asset paths, whatever its method,
    is handed to the file server of the directory [./static] with its
    path unchanged, after the correlation header has been set on the fresh
    response, and the outcome of the file server is the outcome of the
    exchange.  When the file server returns, the request is logged once
    behind whatever the file server logged, and a response left without
    header is sent as 200.  When it panics, the request is logged and
    then net/http reports the panic, with the remote address, the panic
    value and the stack, through the same logger; the response is left
    as the file server left it.  When it aborts, the request is logged
    and nothing more. *)
Theorem asset_request_served_by_file_server r σ :
  RequestURI r ≠ "*" →
  URL_Path r = "/style.css" ∨ URL_Path r = "/background.jpg" →
  let got := Header_Get (ReqHeader r) "X-Request-Id" in
  let id := if decide (got = "") then nextRequestID σ else got in
  let r' := WithContext r (WithValue (Ctx r) requestIDKey (AString id)) in
  let σ' := {| rw := rw_SetHeader "X-Request-Id" id newResponse;
               stdout := stdout σ; healthy := healthy σ; now := now σ |} in
  let served := FileServer env "./static" r' σ' in
  let line := {| line_prefix := "http: ";
                 line_text := Sprintln [id; Method r; URL_Path r; RemoteAddr r;
                                        UserAgent r] |} in
  ServeMux_Handler (router env) r = FileServer env "./static"
  ∧ URL_Path r' = URL_Path r
  ∧ (serve env r σ).1 = served.1
  ∧ match served.1 with
    | Returned =>
        stdout (serve env r σ).2 = stdout served.2 ++ [line]
        ∧ rw (serve env r σ).2
          = match rw_sent (rw served.2) with
            | None => rw_commit StatusOK (rw served.2)
            | Some _ => rw served.2
            end
    | Panicked v stack =>
        let text := "http: panic serving " +:+ RemoteAddr r +:+ ": " +:+ v
                    +:+ newline +:+ stack in
        stdout (serve env r σ).2
        = stdout served.2
          ++ [line;
              {| line_prefix := "http: ";
                 line_text := if bool_decide (last (b text) = Some (ascii_of_nat 10))
                              then text else text +:+ newline |}]
        ∧ rw (serve env r σ).2 = rw served.2
    | Aborted =>
        stdout (serve env r σ).2 = stdout served.2 ++ [line]
        ∧ rw (serve env r σ).2 = rw served.2
    end.
Proof.
  intros Hstar Hp got id r' σ' served line.
  split; [by apply router_asset|]. split; [done|].
  rewrite (serve_asset r σ Hstar Hp). fold got id r' σ' served.
  destruct served as [o σ1]. destruct o as [|v stack|]; cbn [fst snd].
  - split; [done|]. cbn [Println rw]. by destruct (rw_sent (rw σ1)).
  - split; [done|]. split; [|done].
    unfold logf, Printf, Println. cbn [stdout]. by rewrite <- app_assoc.
  - by repeat split.
Qed.
End Assets.

Section AssetExamples.
Import Http.

Lemma asset_request_served_by_file_server_witness :
  (serve Sample.env_connected (Sample.request "HEAD" "/style.css" ∅) (Sample.world 1)).1
  = (Sample.no_files "./static"
       (WithContext (Sample.request "HEAD" "/style.css" ∅)
          (WithValue Background requestIDKey (AString "1700000000000000000")))
       {| rw := rw_SetHeader "X-Request-Id" "1700000000000000000" newResponse;
          stdout := []; healthy := 1; now := 1700000000000000000 |}).1.
Proof.
  refine (proj1 (proj2 (proj2 (asset_request_served_by_file_server Sample.env_connected
            (Sample.request "HEAD" "/style.css" ∅) (Sample.world 1) _ _)))).
  - by vm_compute.
  - by left.
Defined.

(** A file server that panics: two lines, the request and the panic. *)
Lemma panicking_file_server_is_reported :
  let env := {| redisAddr := "redis:6379";
                ReadFile := fun name => ([], None);
                Ping := fun addr => PingReply "PONG";
                FileServer := fun root r σ => (Panicked "boom" "goroutine 7 [running]:", σ) |} in
  line_text <$> stdout (serve env (Sample.request "GET" "/style.css" ∅) (Sample.world 1)).2
  = ["1700000000000000000 GET /style.css 10.0.0.7:51234 " +:+ newline;
     "http: panic serving 10.0.0.7:51234: boom" +:+ newline
     +:+ "goroutine 7 [running]:" +:+ newline].
Proof. by vm_compute. Qed.
End AssetExamples.

(** ** Canonical paths and the router *)


Section Canonical.
Import Http GoStrings.

(** Cleaning a clean path changes nothing, so the target of a redirect
    is itself in canonical form. *)
Lemma cleanPath_idempotent p : cleanPath (cleanPath p) = cleanPath p.
Proof.
  unfold cleanPath. rewrite b_of_bytes.
  destruct (cleanPath_bytes_shape (b p)) as (elems & He & [-> | [Hne ->]]).
  - by rewrite cleanPath_bytes_fixed.
  - by rewrite cleanPath_bytes_fixed_slash.
Qed.

(** X8: the canonical paths are exactly: a slash, then elements that are
    not empty, not [.], not [..] and free of slashes, separated by single
    slashes, and optionally one slash at the end (the root [/] is the
    case of no element). *)
Theorem canonical_paths p :
  cleanPath p = p ↔
  ∃ elems, Forall plain_elem elems
           ∧ (b p = slash :: join_slash elems
              ∨ (elems ≠ [] ∧ b p = slash :: join_slash elems ++ [slash])).
Proof.
  split.
  - intros Hc. destruct (cleanPath_bytes_shape (b p)) as (elems & He & Hshape).
    exists elems. split; [done|].
    assert (cleanPath_bytes (b p) = b p) as <-; [|done].
    rewrite <- Hc at 2. unfold cleanPath. by rewrite b_of_bytes.
  - intros (elems & He & [Hp | [Hne Hp]]); apply b_inj; unfold cleanPath;
      rewrite b_of_bytes, Hp.
    + by apply cleanPath_bytes_fixed.
    + by apply cleanPath_bytes_fixed_slash.
Qed.
End Canonical.

Section Dispatch.
Import Http.
Variable env : Env.


(** X10: a client that follows a redirect of the mux is served: the
    request for the redirect target is given to the page handler or to the
    file server, for every method, and is not redirected again. *)
Theorem redirect_target_is_served r :
  let r' := follow r (cleanPath (URL_Path r)) in
  RequestURI r' ≠ "*"
  ∧ (ServeMux_Handler (router env) r' = handler env
     ∨ ServeMux_Handler (router env) r' = FileServer env "./static").
Proof.
  intros r'. split.
  - unfold r', follow. cbn [RequestURI]. rewrite URL_String_cleanPath.
    destruct (escape_canonical (b (URL_Path r))) as (elems & _ & [-> | [_ ->]]);
      by intros [=].
  - assert (cleanPath (URL_Path r') = URL_Path r') as Hc
      by apply cleanPath_idempotent.
    destruct (decide (URL_Path r' = "/style.css")) as [H1|H1];
      [right; apply router_asset; by left|].
    destruct (decide (URL_Path r' = "/background.jpg")) as [H2|H2];
      [right; apply router_asset; by right|].
    left. by apply ServeMux_Handler_page.
Qed.
End Dispatch.

Section DispatchExamples.
Import Http.

End DispatchExamples.

(** ** Start-up and shutdown *)

Section Sequence.
Import Lifecycle.
Variable sc : Scenario.

(** X11: the shutdown sequence keeps the order of the source in every
    run: when the 30 second context exists the flag has been stored 0;
    when keep-alives are off the context exists; when [Shutdown] has been
    called keep-alives are off and the listener no longer accepts; and
    [done] is closed only once the goroutine is through. *)
Theorem shutdown_sequence_in_order evs :
  let p := run sc evs init in
  (p_ctx_timeout p = None ∨ p_ctx_timeout p = Some (30 * 1000000000)%Z)
  ∧ (p_ctx_timeout p ≠ None → p_healthy p = 0%Z ∨ p_stores p = [0; 1]%Z)
  ∧ (p_keepAlives p = false → p_ctx_timeout p ≠ None)
  ∧ (p_inShutdown p = true → p_keepAlives p = false ∧ p_listening p = false)
  ∧ (p_done p = true → p_inShutdown p = true ∧ p_watcher p = W_finished).
Proof.
  intros p.
  destruct (sequence_inv_run sc evs init sequence_inv_init) as (Hctx & Hka & Hsd & Hdone & Hl).
  destruct (flag_inv_run sc evs init) as [Hh Ha]; [done|].
  fold p in Hctx, Hka, Hsd, Hdone, Hl, Hh, Ha. unfold stores_agree in Ha.
  repeat apply conj.
  - rewrite Hctx. destruct (bool_decide _); auto.
  - intros Hc.
    assert (watcher_has_stored (p_watcher p) = true) as Hws.
    { rewrite Hctx in Hc.
      destruct (p_watcher p); first [done | exfalso; by apply Hc]. }
    rewrite Hws in Ha. destruct (main_has_stored (p_main p)).
    + destruct Ha as [Ha|Ha]; [left; by rewrite Hh, Ha|by right].
    + left. by rewrite Hh, Ha.
  - intros Hk. rewrite Hka in Hk. rewrite Hctx.
    destruct (p_watcher p); first [done | by vm_compute in Hk].
  - intros Hs. split.
    + rewrite Hsd in Hs. rewrite Hka.
      destruct (p_watcher p); first [done | by vm_compute in Hs].
    + destruct (p_listening p); [|done].
      destruct (Hl eq_refl) as [_ ?]. congruence.
  - intros Hd. rewrite Hdone in Hd. apply bool_decide_eq_true in Hd.
    split; [by rewrite Hsd, Hd|done].
Qed.

(** X12: in a process that is still running and has seen no SIGINT, a
    SIGINT followed by six statements of the goroutine brings the flag to
    0, switches keep-alives off, closes the listener and enters
    [Shutdown] with a context of 30 seconds. *)
Theorem interrupt_starts_shutdown evs :
  Deliver SIGINT ∉ evs → p_exit (run sc evs init) = None →
  let p' := run sc (evs ++ Deliver SIGINT :: replicate 6 StepWatcher) init in
  p_healthy p' = 0%Z ∧ p_keepAlives p' = false
  ∧ p_ctx_timeout p' = Some (30 * 1000000000)%Z
  ∧ p_inShutdown p' = true ∧ p_listening p' = false
  ∧ p_watcher p' = W_in_Shutdown ∧ p_exit p' = None.
Proof.
  intros Hno He p'. unfold p'. rewrite run_app.
  destruct (idle_run sc evs init Hno idle_init) as (Hw & Hq & _).
  destruct (run sc evs init). cbn in He, Hw, Hq. subst. by cbn.
Qed.

(** X13: without a SIGINT the process never ends with status 0; if it
    ends at all, it is with status 1 because the listener could not be
    bound. *)
Theorem no_clean_exit_without_interrupt evs :
  Deliver SIGINT ∉ evs →
  let p := run sc evs init in
  p_exit p ≠ Some 0%Z
  ∧ (p_exit p = Some 1%Z → is_Some (listen_error sc) ∧ p_main p = M_ListenAndServe).
Proof.
  intros Hno p.
  destruct (idle_run sc evs init Hno idle_init) as (Hw & _).
  destruct (exit_inv_run sc evs init (exit_inv_init sc)) as [(_ & H0 & H1) _].
  destruct (sequence_inv_run sc evs init sequence_inv_init) as (_ & _ & _ & Hdone & _).
  fold p in Hw, H0, H1, Hdone. split.
  - intros He. apply H0 in He as (_ & Hd & _). rewrite Hdone, Hw in Hd. done.
  - intros He. apply H1 in He as [?|[_ Hw']]; [done|]. congruence.
Qed.

(** X14: while the listener accepts connections, [main] is inside
    [ListenAndServe] and [Shutdown] has not been called; and until the
    goroutine has stored 0 the flag is 1. *)
Theorem flag_is_set_while_serving evs :
  let p := run sc evs init in
  p_listening p = true →
  p_main p = M_serving ∧ p_inShutdown p = false
  ∧ (watcher_has_stored (p_watcher p) = false → p_healthy p = 1%Z).
Proof.
  intros p Hlis.
  destruct (sequence_inv_run sc evs init sequence_inv_init) as (_ & _ & _ & _ & Hl).
  destruct (flag_inv_run sc evs init) as [Hh Ha]; [done|].
  fold p in Hl, Hh, Ha. destruct (Hl Hlis) as [Hm Hs].
  repeat split; try done. intros Hw. unfold stores_agree in Ha.
  rewrite Hm, Hw in Ha. cbn in Ha. by rewrite Hh, Ha.
Qed.

Lemma listening_needs_bind p e :
  (p_listening p = true → listen_error sc = None) →
  p_listening (exec sc p e) = true → listen_error sc = None.
Proof.
  intros Hinv. unfold exec, step. destruct (p_exit p); [done|].
  destruct e as [sig| |]; [done|..].
  - unfold step_main. destruct (p_main p); cbn; try done.
    + destruct (p_inShutdown p); [done|]. by destruct (listen_error sc).
    + by destruct (p_inShutdown p).
    + by destruct (p_done p).
  - unfold step_watcher. destruct (p_watcher p); cbn; try done.
    + by destruct (p_quit p).
    + by destruct (Shutdown_err _).
Qed.

(** X15: when the address cannot be bound the listener never accepts a
    connection, in no state of any run. *)
Theorem bind_failure_never_serves evs err :
  listen_error sc = Some err → p_listening (run sc evs init) = false.
Proof.
  intros Herr.
  assert (∀ p, (p_listening p = true → listen_error sc = None) →
               p_listening (run sc evs p) = true → listen_error sc = None) as Hrun.
  { induction evs as [|e evs' IH]; intros p Hp; [done|].
    cbn. apply IH. by apply listening_needs_bind. }
  destruct (p_listening (run sc evs init)) eqn:Hl; [|done].
  apply Hrun in Hl; [congruence|done].
Qed.
End Sequence.

Section SequenceExamples.
Import Lifecycle.

Lemma interrupt_starts_shutdown_witness :
  p_watcher (run Sample.sc_clean
               (Sample.startup ++ Deliver SIGINT :: replicate 6 StepWatcher) init)
  = W_in_Shutdown.
Proof.
  assert (Deliver SIGINT ∉ Sample.startup) as Hno
    by (apply (bool_decide_unpack _); by vm_compute).
  exact (proj1 (proj2 (proj2 (proj2 (proj2 (proj2
           (interrupt_starts_shutdown Sample.sc_clean Sample.startup Hno eq_refl))))))).
Defined.

Lemma no_clean_exit_without_interrupt_witness :
  p_main (run Sample.sc_port_taken (Sample.startup ++ [Deliver SIGTERM; StepMain]) init)
  = M_ListenAndServe.
Proof.
  assert (Deliver SIGINT ∉ Sample.startup ++ [Deliver SIGTERM; StepMain]) as Hno
    by (apply (bool_decide_unpack _); by vm_compute).
  exact (proj2 (proj2 (no_clean_exit_without_interrupt Sample.sc_port_taken _ Hno)
                  eq_refl)).
Defined.

Lemma flag_is_set_while_serving_witness :
  p_healthy (run Sample.sc_clean Sample.startup init) = 1%Z.
Proof.
  exact (proj2 (proj2 (flag_is_set_while_serving Sample.sc_clean Sample.startup eq_refl))
           eq_refl).
Defined.

Lemma bind_failure_never_serves_witness :
  p_listening (run Sample.sc_port_taken Sample.startup init) = false.
Proof.
  exact (bind_failure_never_serves Sample.sc_port_taken Sample.startup _ eq_refl).
Defined.
End SequenceExamples.
